(** * Quality-Control: windowed outlier detection and FUC curve flagging

    A shallow embedding of [memoized_outlier_detector.py] and
    [FUC_flagging.py].  numpy arrays of float64 are lists of Rocq's
    primitive binary64 floats, Python integers are [Z], Python slices keep
    their wrap-around and clamping, and the array objects that the detector
    mutates in place live in a store addressed by references. *)

From Stdlib Require Import ZArith Floats.
From stdpp Require Import base option list gmap.

(** Decimal literals such as 1.35 denote the nearest binary64 value, as in
    Python. *)
Set Warnings "-inexact-float".

Local Open Scope Z_scope.

(** ** float64 helpers *)

(** [float('nan')] *)
Definition NaN : float := PrimFloat.nan.

(** [np.isnan] / [math.isnan] on one value. *)
Definition isnan (x : float) : bool := PrimFloat.is_nan x.

(** [sum(~np.isnan(col))]: the number of values that are not NaN. *)
Definition count_not_nan (col : list float) : Z :=
  Z.of_nat (length (filter (λ x, isnan x = false) col)).

(** A Python [int] used where a float is expected. *)
Definition float_of_int (z : Z) : float :=
  if z <? 0 then PrimFloat.opp (PrimFloat.of_uint63 (Uint63.of_Z (- z)))
  else PrimFloat.of_uint63 (Uint63.of_Z z).

(** ** Python sequences *)

(** How CPython adjusts one bound of [l[start:stop]] for a sequence of
    length [n]: a negative bound counts from the end, and every bound is
    clamped into [0, n]. *)
Definition adjust_index (n i : Z) : Z :=
  if i <? 0 then Z.max 0 (i + n) else Z.min i n.

(** [l[start:stop]], a missing bound being [None]. *)
Definition py_slice {A} (l : list A) (start stop : option Z) : list A :=
  let n := Z.of_nat (length l) in
  let lo := from_option (adjust_index n) 0 start in
  let hi := from_option (adjust_index n) n stop in
  take (Z.to_nat (hi - lo)) (drop (Z.to_nat lo) l).

(** ** numpy arrays *)

(** A 2-D array: its rows, and the number of columns (which numpy keeps in
    [shape] even when there is no row). *)
Record ndarray (A : Type) := mkArray { ncols : nat; rows : list (list A) }.
Arguments mkArray {A} _ _.
Arguments ncols {A} _.
Arguments rows {A} _.

Definition nrows {A} (a : ndarray A) : nat := length (rows a).

(** [a.shape] *)
Definition shape {A} (a : ndarray A) : nat * nat := (nrows a, ncols a).

(** Every row has [ncols] cells. *)
Definition rectangular {A} (a : ndarray A) : Prop :=
  Forall (λ r, length r = ncols a) (rows a).

(** [a[r, c]]; [d] stands for the IndexError outside the array. *)
Definition cell {A} (d : A) (a : ndarray A) (r c : nat) : A :=
  nth c (nth r (rows a) []) d.

(** [a[start:stop, ]] *)
Definition slice_rows {A} (a : ndarray A) (start stop : option Z) : ndarray A :=
  mkArray (ncols a) (py_slice (rows a) start stop).

(** [frame[:, i]] *)
Definition column {A} (d : A) (frame : ndarray A) (i : nat) : list A :=
  map (λ r, nth i r d) (rows frame).

(** [np.zeros(shape)], and the constant array in general. *)
Definition full {A} (x : A) (sh : nat * nat) : ndarray A :=
  mkArray sh.2 (replicate sh.1 (replicate sh.2 x)).

(** What the caller hands over: a 1-D or a 2-D array of floats. *)
Inductive pyarray :=
  | Array1 (v : list float)
  | Array2 (a : ndarray float).

(** [len(data.shape) == 1] *)
Definition is_1d (d : pyarray) : bool :=
  match d with Array1 _ => true | Array2 _ => false end.

(** [np.reshape(np.array(data), (-1, 1))]: one column, one row per value. *)
Definition reshape_column (v : list float) : ndarray float :=
  mkArray 1 (map (λ x, [x]) v).

(** ** byFrameGeneratorFactory *)

Module byFrameGeneratorFactory.

(** [_frame] is already the integer [math.ceil(frame)]. *)
Record t := make { _frame : Z }.

(** [generator(self, data)]: the frames the generator yields, in order.
    The generator slices a private copy of [data] that nothing writes to
    while it is consumed, so the frames are values. *)
Definition generator {A} (self : t) (data : ndarray A) : list (ndarray A) :=
  let n := Z.of_nat (nrows data) in
  map (λ i : nat,
         let idx := Z.of_nat i in
         if (_frame self <=? idx) && (idx <? n - _frame self) then
           slice_rows data (Some (idx - _frame self)) (Some (idx + _frame self + 1))
         else if idx <? _frame self then
           slice_rows data None (Some (2 * _frame self + 1))
         else
           slice_rows data (Some (-2 * _frame self - 1)) None)
      (seq 0 (nrows data)).

Definition span (self : t) : Z := _frame self.

End byFrameGeneratorFactory.

(** The rows [lo, lo + len) of an array, as the specification names a
    window. *)
Definition block {A} (a : ndarray A) (lo len : nat) : ndarray A :=
  mkArray (ncols a) (take len (drop lo (rows a))).


(** ** numpy statistics

    [np.nanpercentile] and [np.nanmedian] are numpy's, not this
    repository's; they are modelled on the values that are not NaN, sorted,
    with numpy's default linear interpolation. *)

Local Open Scope float_scope.

Definition not_nan_values (col : list float) : list float :=
  filter (λ x, isnan x = false) col.

Fixpoint insert_sorted (x : float) (l : list float) : list float :=
  match l with
  | [] => [x]
  | y :: l' => if x <=? y then x :: l else y :: insert_sorted x l'
  end.

Definition sort_floats (l : list float) : list float :=
  foldr insert_sorted [] l.

(** numpy's [_lerp(a, b, t)]. *)
Definition lerp (a b t : float) : float :=
  if 0.5 <=? t then b - (b - a) * (1 - t) else a + (b - a) * t.

(** [np.nanpercentile(col, q)] for an integer percentage [q]: the virtual
    index is [(n - 1) * q / 100]; its integer part selects two neighbours
    and its fractional part interpolates between them.  For the 25 and 75
    of the source the fractional part is a multiple of a quarter, so it is
    the exact float numpy computes.  No value that is not NaN: NaN. *)
Definition nanpercentile (col : list float) (q : Z) : float :=
  let arr := sort_floats (not_nan_values col) in
  match arr with
  | [] => NaN
  | _ :: _ =>
      let n := Z.of_nat (length arr) in
      let pos := ((n - 1) * q)%Z in
      let previous := Z.to_nat (pos / 100) in
      let next := Nat.min (S previous) (Z.to_nat (n - 1)) in
      let gamma := float_of_int (pos mod 100) / 100 in
      lerp (nth previous arr NaN) (nth next arr NaN) gamma
  end.

(** [np.nanmedian(col)]: the middle value, or the mean of the two middle
    values; NaN when every value is NaN. *)
Definition nanmedian (col : list float) : float :=
  let arr := sort_floats (not_nan_values col) in
  let n := length arr in
  if (n =? 0)%nat then NaN
  else if Nat.odd n then nth (n / 2) arr NaN
  else (nth (n / 2 - 1) arr NaN + nth (n / 2) arr NaN) / 2.

(** ** is_outlier *)

(** [sum(np.isnan(l))] *)
Definition count_nan (l : list float) : Z :=
  Z.of_nat (length (filter (λ x, isnan x = true) l)).

(** The local [cut_off] of [is_outlier]: the interquartile estimate of the
    standard deviation times [std_dev_limit], NaN when the column holds
    fewer than [min_num_points] values that are not NaN. *)
Definition cut_off (col : list float) (std_dev_limit : float)
    (min_num_points : Z) : float :=
  let q25 := if (min_num_points <=? count_not_nan col)%Z
             then nanpercentile col 25 else NaN in
  let q75 := if (min_num_points <=? count_not_nan col)%Z
             then nanpercentile col 75 else NaN in
  let iqr_stdev := if (count_nan [q75; q25] =? 0)%Z
                   then abs (q75 - q25) / 1.35 else NaN in
  iqr_stdev * std_dev_limit.

(** [is_outlier(col, data_point, std_dev_limit, min_num_points)].  Python's
    [|] binds tighter than the conditional expression, and the chained
    comparison is parenthesised: the three tests are or-ed, and any of them
    gives [False]. *)
Definition is_outlier (col : list float) (data_point std_dev_limit : float)
    (min_num_points : Z) : bool :=
  let cut_off := cut_off col std_dev_limit min_num_points in
  if isnan cut_off || isnan data_point ||
     ((nanmedian col - cut_off <? data_point) &&
      (data_point <? nanmedian col + cut_off))
  then false else true.

Local Close Scope float_scope.

(** ** InterquartileVarianceAlgorithm *)

(** [a[i] = row] *)
Definition set_row {A} (a : ndarray A) (i : nat) (row : list A) : ndarray A :=
  mkArray (ncols a) (<[i := row]> (rows a)).

Module InterquartileVarianceAlgorithm.

Record t := make { _stdev_limit : float; _min_num_points : Z }.

(** [[sum(~np.isnan(frame[:, i])) for i in range(frame.shape[1])]] *)
Definition new_num_missing_data (frame : ndarray float) : list Z :=
  map (λ i, count_not_nan (column NaN frame i)) (seq 0 (ncols frame)).

(** The [need_recalc] list of row [count]. *)
Definition need_recalc (new_num_missing_data : list Z)
    (num_missing_data_in_frame : ndarray Z) (count : nat) : list bool :=
  map (λ i, negb (nth i new_num_missing_data 0
                  =? cell 0 num_missing_data_in_frame count i))
      (seq 0 (length new_num_missing_data)).

(** The [row_outliers] list of row [count]. *)
Definition row_outliers (self : t) (data frame : ndarray float)
    (need_recalc : list bool) (min_num_points : Z) (count : nat) : list bool :=
  map (λ i, if nth i need_recalc false
            then is_outlier (column NaN frame i) (cell NaN data count i)
                            (_stdev_limit self) min_num_points
            else false)
      (seq 0 (ncols frame)).

(** The body of [for count, frame in enumerate(generator)], on the pair
    of arrays it writes to.  Cells are read inside the arrays' bounds,
    where [OutlierDetector.outliers] keeps them by building the cache
    with the shape of the data.  With a cache of another shape the code
    raises IndexError at [num_missing_data_in_frame[count, i]]; that is
    not modelled, and what is stated of a cache the caller supplies
    assumes its shape is that of the data. *)
Definition frame_step (self : t) (data : ndarray float) (min_num_points : Z)
    (st : ndarray bool * ndarray Z) (cf : nat * ndarray float)
    : ndarray bool * ndarray Z :=
  let '(outliers, num_missing_data_in_frame) := st in
  let '(count, frame) := cf in
  let new := new_num_missing_data frame in
  let recalc := need_recalc new num_missing_data_in_frame count in
  let row := row_outliers self data frame recalc min_num_points count in
  let num_missing_data_in_frame :=
    if negb (bool_decide (nth count (rows num_missing_data_in_frame) [] = new))
    then set_row num_missing_data_in_frame count new
    else num_missing_data_in_frame in
  (set_row outliers count row, num_missing_data_in_frame).

(** [outliers(self, data, generator_factory, num_missing_data_in_frame)]:
    the boolean matrix of one sweep and the cache, which is the caller's
    array updated in place and returned. *)
Definition outliers (self : t) (data : pyarray)
    (generator_factory : byFrameGeneratorFactory.t)
    (num_missing_data_in_frame : ndarray Z) : ndarray bool * ndarray Z :=
  let span := byFrameGeneratorFactory.span generator_factory in
  let data := match data with
              | Array1 v => reshape_column v
              | Array2 a => a
              end in
  let outliers := full false (shape data) in
  let generator := byFrameGeneratorFactory.generator generator_factory data in
  let min_num_points := Z.min (2 * span + 1) (_min_num_points self) in
  foldl (frame_step self data min_num_points)
        (outliers, num_missing_data_in_frame)
        (imap pair generator).

End InterquartileVarianceAlgorithm.

(** ** OutlierDetector *)

(** [data[mask] = float('nan')] *)
Definition set_nan_where (data : ndarray float) (mask : ndarray bool)
    : ndarray float :=
  mkArray (ncols data)
    (zip_with (zip_with (λ x (b : bool), if b then NaN else x))
              (rows data) (rows mask)).

(** [outliers += mask]: the accumulator counts the sweeps that flagged a
    cell. *)
Definition add_mask (outliers : ndarray Z) (mask : ndarray bool) : ndarray Z :=
  mkArray (ncols outliers)
    (zip_with (zip_with (λ x (b : bool), if b then x + 1 else x))
              (rows outliers) (rows mask)).

(** [np.sum(mask)]: how many cells are true. *)
Definition np_sum (mask : ndarray bool) : Z :=
  Z.of_nat (length (filter (λ b, b = true) (concat (rows mask)))).

(** [outliers.astype(bool)] *)
Definition astype_bool (a : ndarray Z) : ndarray bool :=
  mkArray (ncols a) (map (map (λ x, negb (x =? 0))) (rows a)).

Module OutlierDetector.

Record t := make {
  _generator_factory : byFrameGeneratorFactory.t;
  _outlier_algorithm : InterquartileVarianceAlgorithm.t
}.

(** The state of the loops of [outliers]: the store of array objects,
    in which [data] is a reference, the accumulator [outliers], the cache
    [num_missing_in_frame], and the masks of the sweeps run so far (kept
    to count and inspect the sweeps; the code does not keep them).  Every
    array of the store owns its buffer: views that share the buffer of
    another array are not modelled, and nothing below is stated about
    them. *)
Record state := mkState {
  store : gmap nat pyarray;
  outliers_acc : ndarray Z;
  num_missing_in_frame : ndarray Z;
  sweep_masks : list (ndarray bool)
}.

(** One pass through the body shared by the two loops; the boolean is
    true when the body ends in [break].  [copy(data)] hands the algorithm
    the current value of the array; [data[outlier_truth_matrix] = nan]
    writes through the reference [data]. *)
Definition iteration (self : t) (data : nat) (st : state) : option (state * bool) :=
  match store st !! data with
  | Some (Array2 a) =>
      let '(outlier_truth_matrix, num_missing) :=
        InterquartileVarianceAlgorithm.outliers (_outlier_algorithm self)
          (Array2 a) (_generator_factory self) (num_missing_in_frame st) in
      let acc := add_mask (outliers_acc st) outlier_truth_matrix in
      let masks := sweep_masks st ++ [outlier_truth_matrix] in
      if np_sum outlier_truth_matrix =? 0 then
        Some (mkState (store st) acc num_missing masks, true)
      else
        Some (mkState (<[data := Array2 (set_nan_where a outlier_truth_matrix)]> (store st))
                      acc num_missing masks, false)
  | _ => None
  end.

(** [while True: ...], with fuel. *)
Fixpoint while_true (fuel : nat) (self : t) (data : nat) (st : state)
    : option state :=
  match fuel with
  | O => None
  | S fuel =>
      match iteration self data st with
      | None => None
      | Some (st, true) => Some st
      | Some (st, false) => while_true fuel self data st
      end
  end.

(** [for _ in range(n): ...] *)
Fixpoint for_range (n : nat) (self : t) (data : nat) (st : state)
    : option state :=
  match n with
  | O => Some st
  | S n =>
      match iteration self data st with
      | None => None
      | Some (st, true) => Some st
      | Some (st, false) => for_range n self data st
      end
  end.

(** What a call leaves behind: the returned mask, the masks of the sweeps
    it ran, and the store. *)
Record outcome := mkOutcome {
  mask : ndarray bool;
  sweeps : list (ndarray bool);
  store_after : gmap nat pyarray
}.

(** [outliers(self, data, num_of_iterations)], called with the reference
    [data] of the caller's array in the store [h].  A 1-D array is copied
    into a fresh single-column array, and [data] is rebound to it; a 2-D
    array is used as it is.  [None] is a run out of fuel, or a reference
    to nothing. *)
Definition outliers (fuel : nat) (self : t) (h : gmap nat pyarray)
    (data : nat) (num_of_iterations : option Z) : option outcome :=
  match h !! data with
  | None => None
  | Some d =>
      let '(h, data, a) :=
        match d with
        | Array1 v =>
            let l := fresh (dom h) in
            (<[l := Array2 (reshape_column v)]> h, l, reshape_column v)
        | Array2 a => (h, data, a)
        end in
      let st := mkState h (full 0 (shape a)) (full 0 (shape a)) [] in
      let final :=
        match num_of_iterations with
        | None => while_true fuel self data st
        | Some n => for_range (Z.to_nat n) self data st
        end in
      match final with
      | None => None
      | Some st =>
          Some (mkOutcome (astype_bool (outliers_acc st)) (sweep_masks st) (store st))
      end
  end.

End OutlierDetector.

(** The number of cells of a matrix that are not NaN. *)
Definition count_present (a : ndarray float) : nat :=
  length (filter (λ x, isnan x = false) (concat (rows a))).

(** Every cell of the matrix is NaN. *)
Definition all_missing (a : ndarray float) : Prop :=
  Forall (Forall (λ x, isnan x = true)) (rows a).

(** The 2-D array the detector works on. *)
Definition as_matrix (d : pyarray) : ndarray float :=
  match d with
  | Array1 v => reshape_column v
  | Array2 a => a
  end.

(** A numpy array is rectangular; a 1-D array always is. *)
Definition well_formed (d : pyarray) : Prop :=
  match d with
  | Array1 _ => True
  | Array2 a => rectangular a
  end.

(** What the loops of the detector keep true: [data] refers to a
    rectangular 2-D array of the shape [sh] it had at the start, and the
    cache and the accumulator have that shape too. *)
Definition detector_inv (sh : nat * nat) (data : nat)
    (st : OutlierDetector.state) : Prop :=
  ∃ a, OutlierDetector.store st !! data = Some (Array2 a) ∧
       rectangular a ∧ shape a = sh ∧
       nrows (OutlierDetector.num_missing_in_frame st) = sh.1 ∧
       rectangular (OutlierDetector.outliers_acc st) ∧
       shape (OutlierDetector.outliers_acc st) = sh.

(** The number of values the array [data] refers to holds. *)
Definition present_in (data : nat) (st : OutlierDetector.state) : nat :=
  match OutlierDetector.store st !! data with
  | Some d => count_present (as_matrix d)
  | None => 0
  end.

(** What the loops do to a 2-D input [a0]: the array [data] refers to is
    [a0] with NaN written over every cell flagged so far, and the
    accumulator counts upwards from zero. *)
Definition marked (a0 : ndarray float) (data : nat)
    (st : OutlierDetector.state) : Prop :=
  OutlierDetector.store st !! data
  = Some (Array2 (set_nan_where a0 (astype_bool (OutlierDetector.outliers_acc st)))) ∧
  Forall (Forall (λ x, 0 <= x)) (rows (OutlierDetector.outliers_acc st)).

(** Window generation as the specification words it: a series shorter than
    one window is refused ([None]) instead of being sliced.  This follows
    the specification, not the source, and is only compared with
    [byFrameGeneratorFactory.generator]. *)
Definition guarded_generator {A} (self : byFrameGeneratorFactory.t)
    (data : ndarray A) : option (list (ndarray A)) :=
  if Z.of_nat (nrows data) <? 2 * byFrameGeneratorFactory._frame self + 1 then None
  else Some (byFrameGeneratorFactory.generator self data).

(** ** FUC_flagging

    Datetimes and timedeltas are integers (ticks); a time series is a list
    of rows [(datetime, xCO2)]. *)

(** The [while j < FUC_data.shape[0]] loop of [FUC_curve_generator], from
    the state [(i, j, ignoreFirst)], with fuel; the result lists the pairs
    the generator yields, the one after the loop last. *)
Fixpoint curve_loop (fuel : nat) (FUC_data : list Z) (min_time_breakpoint : Z)
    (i j : Z) (ignoreFirst : bool) : option (list (Z * Z)) :=
  match fuel with
  | O => None
  | S fuel =>
      if j <? Z.of_nat (length FUC_data) then
        if min_time_breakpoint
           <? Z.abs (nth (Z.to_nat j) FUC_data 0 - nth (Z.to_nat (j - 1)) FUC_data 0)
        then
          if negb ignoreFirst then
            cons (i, j - 1)
              <$> curve_loop fuel FUC_data min_time_breakpoint j (j + 1) ignoreFirst
          else curve_loop fuel FUC_data min_time_breakpoint j (j + 1) false
        else curve_loop fuel FUC_data min_time_breakpoint i (j + 1) ignoreFirst
      else Some [(i, j - 1)]
  end.

(** [FUC_curve_generator(FUC_data, min_time_breakpoint, ignoreFirst)]: the
    loop tests [j] once per row, so the length of the data and one is fuel
    enough. *)
Definition FUC_curve_generator (FUC_data : list Z) (min_time_breakpoint : Z)
    (ignoreFirst : bool) : option (list (Z * Z)) :=
  curve_loop (S (length FUC_data)) FUC_data min_time_breakpoint 0 1 ignoreFirst.

(** [np.mean]: the sum from the left over the number of values; for no
    value, zero over numpy's zero count, which is NaN for either dtype. *)
Definition np_mean (l : list float) : float :=
  PrimFloat.div
    (match l with [] => 0%float | x :: l' => foldl PrimFloat.add x l' end)
    (float_of_int (Z.of_nat (length l))).

(** The element type of an array, where numpy's answer depends on it.  The
    time series of [qc_FUC_timeseries] holds datetime objects beside the
    measurements, so it and every slice of it have dtype [object]. *)
Inductive dtype := float64 | object_.

(** The exceptions this code raises. *)
Inductive exception := IndexError | ZeroDivisionError.

(** A value, or the exception raised instead. *)
Inductive result (A : Type) :=
  | Ok (a : A)
  | Raise (e : exception).
Arguments Ok {A} _.
Arguments Raise {A} _.

(** A loop that appends [f x] for each [x] and stops at the first
    exception. *)
Fixpoint try_map {A B} (f : A -> result B) (l : list A) : result (list B) :=
  match l with
  | [] => Ok []
  | x :: l =>
      match f x with
      | Raise e => Raise e
      | Ok y =>
          match try_map f l with
          | Raise e => Raise e
          | Ok ys => Ok (y :: ys)
          end
      end
  end.

(** [np.std]: the root of the mean squared deviation from the mean.  On an
    empty array the mean is a division by zero: NaN for float64, and a
    ZeroDivisionError for dtype [object], whose elements numpy divides as
    Python numbers. *)
Definition np_std (dt : dtype) (l : list float) : result float :=
  match dt, l with
  | object_, [] => Raise ZeroDivisionError
  | _, _ =>
      let mean := np_mean l in
      Ok (PrimFloat.sqrt
            (np_mean (map (λ x, PrimFloat.mul (PrimFloat.sub x mean)
                                  (PrimFloat.sub x mean)) l)))
  end.

(** [FUC_tests], on a curve of dtype [dt]: [True] is a bad curve.  The
    exception of [np.std] is raised after the mean test failed to flag. *)
Definition FUC_tests (dt : dtype) (FUC_curve : list float) (span_co2 : float)
    (min_num_points : Z) (max_diff_from_span max_st_dev : float) : result bool :=
  if Z.of_nat (length FUC_curve) <? min_num_points then Ok true
  else
    let last_FUC_measurements := py_slice FUC_curve (Some (-8)) (Some (-3)) in
    if PrimFloat.ltb max_diff_from_span
         (PrimFloat.abs (PrimFloat.sub span_co2 (np_mean last_FUC_measurements)))
    then Ok true
    else
      match np_std dt last_FUC_measurements with
      | Raise e => Raise e
      | Ok st_dev => if PrimFloat.ltb max_st_dev st_dev then Ok true else Ok false
      end.

(** The measurements [qc_FUC_timeseries] hands to [FUC_tests] for the curve
    the generator reports as [(curve_start, curve_end)]:
    [FUC_time_series[curve_start:curve_end, 1]], after the failsafe that
    widens a one-point curve. *)
Definition tested_measurements (FUC_time_series : list (Z * float))
    (curve_start curve_end : Z) : list float :=
  let curve_end :=
    if curve_end - curve_start =? 0 then curve_end + 1 else curve_end in
  py_slice (map snd FUC_time_series) (Some curve_start) (Some curve_end).

(** The body of the loop of [qc_FUC_timeseries] for one curve: the row
    [[timestamp, flag]], the IndexError of
    [FUC_time_series[curve_start, 0]] outside the series, or the exception
    of [FUC_tests]. *)
Definition curve_row (FUC_time_series : list (Z * float)) (span_co2 : float)
    (min_num_points : Z) (max_diff_from_span max_st_dev : float)
    (curve : Z * Z) : result (Z * bool) :=
  let '(curve_start, curve_end) := curve in
  match FUC_time_series !! Z.to_nat curve_start with
  | None => Raise IndexError
  | Some row =>
      let timestamp := row.1 in
      match FUC_tests object_
              (tested_measurements FUC_time_series curve_start curve_end)
              span_co2 min_num_points max_diff_from_span max_st_dev with
      | Raise e => Raise e
      | Ok flag => Ok (timestamp, flag)
      end
  end.

(** [qc_FUC_timeseries]: one [(timestamp, flag)] per curve, or the first
    exception raised on the way.  [None] is the generator out of fuel. *)
Definition qc_FUC_timeseries (FUC_time_series : list (Z * float))
    (min_time_breakpoint : Z) (span_co2 : float) (min_num_points : Z)
    (max_diff_from_span max_st_dev : float) (ignoreFirst : bool)
    : option (result (list (Z * bool))) :=
  match FUC_curve_generator (map fst FUC_time_series)
          min_time_breakpoint ignoreFirst with
  | None => None
  | Some generator =>
      Some (try_map (curve_row FUC_time_series span_co2 min_num_points
                       max_diff_from_span max_st_dev) generator)
  end.

(** ** Further notions used by the properties of the code *)

(** The first row of the frame the generator yields for row [i] of a series
    of [n] rows, for a half-width [h]: the three branches of the generator,
    with the clamping of the slices. *)
Definition frame_start (h n i : nat) : nat :=
  if (i <? h)%nat then 0%nat
  else if (i <? n - h)%nat then (i - h)%nat
  else (n - (2 * h + 1))%nat.

(** In how many of the sweeps [masks] the cell [(r, c)] was flagged. *)
Definition times_flagged (masks : list (ndarray bool)) (r c : nat) : Z :=
  Z.of_nat (length (filter (λ m, cell false m r c = true) masks)).

(** The accumulator of the detector counts, cell by cell, the sweeps that
    flagged the cell; no cell is flagged by two sweeps, and a flagged cell
    held a value in the input [a0]. *)
Definition flagged_once (a0 : ndarray float) (st : OutlierDetector.state)
    : Prop :=
  ∀ r c, (r < nrows a0)%nat -> (c < ncols a0)%nat ->
    cell 0 (OutlierDetector.outliers_acc st) r c
    = times_flagged (OutlierDetector.sweep_masks st) r c ∧
    times_flagged (OutlierDetector.sweep_masks st) r c <= 1 ∧
    (times_flagged (OutlierDetector.sweep_masks st) r c = 1 ->
     isnan (cell NaN a0 r c) = false).

(** All that the loops keep true of a run on the matrix [a0]. *)
Definition run_inv (a0 : ndarray float) (data : nat)
    (st : OutlierDetector.state) : Prop :=
  detector_inv (shape a0) data st ∧ marked a0 data st ∧ flagged_once a0 st.

(** The time between row [k] and row [k + 1] of a series of datetimes, as
    [FUC_curve_generator] measures it. *)
Definition gap (FUC_data : list Z) (k : Z) : Z :=
  Z.abs (nth (Z.to_nat (k + 1)) FUC_data 0 - nth (Z.to_nat k) FUC_data 0).

(** The curves, in order, cover the rows [lo] to [hi] without hole or
    overlap: the first starts at [lo], each next one starts right after the
    end of the one before, and the last ends at [hi]. *)
Fixpoint tiles (lo hi : Z) (curves : list (Z * Z)) : Prop :=
  match curves with
  | [] => False
  | c :: rest =>
      c.1 = lo ∧ lo <= c.2 ∧
      match rest with
      | [] => c.2 = hi
      | _ :: _ => tiles (c.2 + 1) hi rest
      end
  end.

(** ** The detector without the memoization

    A reference for what the cache saves, not in the source: the sweep that
    recomputes every cell, and the loop of the detector over it. *)

(** One sweep with every cell recomputed. *)
Definition unmemoized_sweep (self : InterquartileVarianceAlgorithm.t)
    (generator_factory : byFrameGeneratorFactory.t) (data : ndarray float)
    : ndarray bool :=
  mkArray (ncols data)
    (imap (λ r frame,
             map (λ i, is_outlier (column NaN frame i) (cell NaN data r i)
                         (InterquartileVarianceAlgorithm._stdev_limit self)
                         (Z.min (2 * byFrameGeneratorFactory.span generator_factory + 1)
                                (InterquartileVarianceAlgorithm._min_num_points self)))
                 (seq 0 (ncols frame)))
          (byFrameGeneratorFactory.generator generator_factory data)).

(** At most [n] unmemoized sweeps over the matrix [a], stopping at the first
    that flags nothing: the accumulator and the masks of the sweeps. *)
Fixpoint reference_run (n : nat) (self : OutlierDetector.t) (a : ndarray float)
    (acc : ndarray Z) (masks : list (ndarray bool))
    : ndarray Z * list (ndarray bool) :=
  match n with
  | O => (acc, masks)
  | S n =>
      let m := unmemoized_sweep (OutlierDetector._outlier_algorithm self)
                 (OutlierDetector._generator_factory self) a in
      if np_sum m =? 0 then (add_mask acc m, masks ++ [m])
      else reference_run n self (set_nan_where a m) (add_mask acc m) (masks ++ [m])
  end.

(** The cache may be trusted for the data: wherever it holds the count of
    the window, so that the sweep skips the cell, recomputing the cell would
    give [False]. *)
Definition cache_sound (self : InterquartileVarianceAlgorithm.t)
    (generator_factory : byFrameGeneratorFactory.t) (data : ndarray float)
    (cache : ndarray Z) : Prop :=
  ∀ r frame c,
    byFrameGeneratorFactory.generator generator_factory data !! r = Some frame ->
    (c < ncols data)%nat ->
    cell 0 cache r c = count_not_nan (column NaN frame c) ->
    is_outlier (column NaN frame c) (cell NaN data r c)
      (InterquartileVarianceAlgorithm._stdev_limit self)
      (Z.min (2 * byFrameGeneratorFactory.span generator_factory + 1)
             (InterquartileVarianceAlgorithm._min_num_points self))
    = false.

(** [a.shape] as the tuple numpy returns: two numbers for a 2-D array, one
    for a 1-D array. *)
Definition shape_tuple {A} (a : ndarray A) : list nat := [nrows a; ncols a].

Definition data_shape (d : pyarray) : list nat :=
  match d with
  | Array1 v => [length v]
  | Array2 a => shape_tuple a
  end.
(** ** Slices *)

Lemma py_slice_between {A} (l : list A) (lo hi : Z) :
  0 <= lo -> lo <= hi -> hi <= Z.of_nat (length l) ->
  py_slice l (Some lo) (Some hi) = take (Z.to_nat (hi - lo)) (drop (Z.to_nat lo) l).
Proof.
  intros Hlo Hhi Hn. unfold py_slice, adjust_index. simpl.
  destruct (Z.ltb_spec lo 0); [lia|].
  destruct (Z.ltb_spec hi 0); [lia|].
  by rewrite !Z.min_l by lia.
Qed.

Lemma py_slice_prefix {A} (l : list A) (hi : Z) :
  0 <= hi -> py_slice l None (Some hi) = take (Z.to_nat hi) l.
Proof.
  intros Hhi. unfold py_slice, adjust_index. simpl.
  destruct (Z.ltb_spec hi 0); [lia|].
  rewrite Z.sub_0_r. destruct (Z.le_gt_cases hi (Z.of_nat (length l))).
  - by rewrite Z.min_l by lia.
  - rewrite Z.min_r by lia. rewrite Nat2Z.id. simpl.
    rewrite !take_ge; [done|lia|rewrite length_drop; lia].
Qed.

Lemma py_slice_suffix {A} (l : list A) (k : Z) :
  0 < k ->
  py_slice l (Some (- k)) None = drop (length l - Z.to_nat k) l.
Proof.
  intros Hk. unfold py_slice, adjust_index. simpl.
  destruct (Z.ltb_spec (- k) 0); [|lia].
  rewrite take_ge.
  - f_equal. lia.
  - rewrite length_drop. lia.
Qed.

Lemma py_slice_sublist {A} (P : A -> Prop) (l : list A) start stop :
  Forall P l -> Forall P (py_slice l start stop).
Proof. intros H. unfold py_slice. by apply Forall_take, Forall_drop. Qed.

(** ** The frame generator *)

Lemma generator_length {A} self (data : ndarray A) :
  length (byFrameGeneratorFactory.generator self data) = nrows data.
Proof.
  unfold byFrameGeneratorFactory.generator.
  by rewrite length_map, length_seq.
Qed.

Lemma generator_lookup {A} self (data : ndarray A) (i : nat) w :
  byFrameGeneratorFactory.generator self data !! i = Some w ->
  (i < nrows data)%nat ∧
  let h := byFrameGeneratorFactory._frame self in
  let n := Z.of_nat (nrows data) in
  let idx := Z.of_nat i in
  w = if (h <=? idx) && (idx <? n - h) then
        slice_rows data (Some (idx - h)) (Some (idx + h + 1))
      else if idx <? h then slice_rows data None (Some (2 * h + 1))
      else slice_rows data (Some (-2 * h - 1)) None.
Proof.
  unfold byFrameGeneratorFactory.generator.
  rewrite list_lookup_fmap. intros Hw.
  destruct (seq 0 (nrows data) !! i) as [j|] eqn:Hj; [|done].
  apply lookup_seq in Hj as [-> Hlt]. simpl in Hw.
  split; [done|]. by injection Hw as <-.
Qed.

Lemma block_nrows {A} (a : ndarray A) lo len :
  (lo + len <= nrows a)%nat -> nrows (block a lo len) = len.
Proof.
  unfold nrows, block. simpl. intros H.
  rewrite length_take, length_drop. lia.
Qed.

(** C5: when the series has at least [2h+1] rows, the generator yields one
    frame per row index; the frame of row [i] is the [2h+1] rows centred at
    [i] when [h <= i < rows - h], the first [2h+1] rows when [i < h], and
    the last [2h+1] rows when [i >= rows - h]; so every frame has exactly
    [2h+1] rows. *)
Theorem generator_frames {A} (h : nat) (data : ndarray A) :
  (2 * h + 1 <= nrows data)%nat ->
  let frames := byFrameGeneratorFactory.generator
                  (byFrameGeneratorFactory.make (Z.of_nat h)) data in
  length frames = nrows data ∧
  ∀ i, (i < nrows data)%nat ->
    ∃ w, frames !! i = Some w ∧
         nrows w = (2 * h + 1)%nat ∧
         ((h <= i < nrows data - h)%nat -> w = block data (i - h) (2 * h + 1)) ∧
         ((i < h)%nat -> w = block data 0 (2 * h + 1)) ∧
         ((nrows data - h <= i)%nat ->
            w = block data (nrows data - (2 * h + 1)) (2 * h + 1)).
Proof.
  intros Hn frames. split; [apply generator_length|].
  intros i Hi.
  destruct (frames !! i) as [w|] eqn:Hw.
  2:{ apply lookup_ge_None in Hw. unfold frames in Hw.
      rewrite generator_length in Hw. lia. }
  exists w. split; [done|].
  apply generator_lookup in Hw as [_ Hw]. simpl in Hw.
  destruct (Z.leb_spec (Z.of_nat h) (Z.of_nat i)) as [Hhi|Hhi];
    [destruct (Z.ltb_spec (Z.of_nat i) (Z.of_nat (nrows data) - Z.of_nat h))
       as [Hin|Hin]|]; simpl in Hw.
  - (* centred *)
    assert (w = block data (i - h) (2 * h + 1)) as ->.
    { subst w. unfold slice_rows, block. f_equal.
      rewrite py_slice_between by (unfold nrows in *; lia).
      f_equal; [lia|f_equal; lia]. }
    split; [apply block_nrows; lia|]. (split; [|split]); intros; [done|lia|lia].
  - (* trailing *)
    destruct (Z.ltb_spec (Z.of_nat i) (Z.of_nat h)); [lia|].
    assert (w = block data (nrows data - (2 * h + 1)) (2 * h + 1)) as ->.
    { subst w. unfold slice_rows, block. f_equal.
      replace (-2 * Z.of_nat h - 1) with (- (2 * Z.of_nat h + 1)) by lia.
      rewrite py_slice_suffix by lia.
      rewrite take_ge.
      - f_equal. unfold nrows. lia.
      - rewrite length_drop. unfold nrows in *. lia. }
    split; [apply block_nrows; lia|]. (split; [|split]); intros; [lia|lia|done].
  - (* leading *)
    destruct (Z.ltb_spec (Z.of_nat i) (Z.of_nat h)); [|lia].
    assert (w = block data 0 (2 * h + 1)) as ->.
    { subst w. unfold slice_rows, block. f_equal.
      rewrite py_slice_prefix by lia. simpl. f_equal. lia. }
    split; [apply block_nrows; lia|]. (split; [|split]); intros; [lia|done|lia].
Qed.

Lemma generator_frames_witness :
  let data := mkArray 1 [[1]; [2]; [3]; [4]] in
  byFrameGeneratorFactory.generator (byFrameGeneratorFactory.make 1) data
  = [mkArray 1 [[1]; [2]; [3]]; mkArray 1 [[1]; [2]; [3]];
     mkArray 1 [[2]; [3]; [4]]; mkArray 1 [[2]; [3]; [4]]]
  ∧ length (byFrameGeneratorFactory.generator
              (byFrameGeneratorFactory.make (Z.of_nat 1)) data) = nrows data.
Proof.
  split; [reflexivity|].
  apply (generator_frames 1 (mkArray 1 [[1]; [2]; [3]; [4]])).
  unfold nrows. simpl. lia.
Defined.

(** C9, as the code has it: a series with fewer than [2h+1] rows raises
    nothing.  The clamped Python slices yield one frame per row, and every
    frame is the whole series. *)
Theorem generator_short_series {A} (h : nat) (data : ndarray A) :
  (nrows data < 2 * h + 1)%nat ->
  byFrameGeneratorFactory.generator
    (byFrameGeneratorFactory.make (Z.of_nat h)) data
  = replicate (nrows data) data.
Proof.
  intros Hn. apply list_eq. intros i.
  destruct (decide (i < nrows data)%nat) as [Hi|Hi].
  2:{ rewrite !lookup_ge_None_2; [done|rewrite length_replicate; lia|
        rewrite generator_length; lia]. }
  rewrite lookup_replicate_2 by done.
  destruct (byFrameGeneratorFactory.generator _ data !! i) as [w|] eqn:Hw.
  2:{ apply lookup_ge_None in Hw. rewrite generator_length in Hw. lia. }
  f_equal. apply generator_lookup in Hw as [_ Hw]. simpl in Hw. subst w.
  destruct data as [c rs]. unfold nrows in *. simpl in *.
  destruct (Z.leb_spec (Z.of_nat h) (Z.of_nat i)) as [Hhi|Hhi];
    [destruct (Z.ltb_spec (Z.of_nat i) (Z.of_nat (length rs) - Z.of_nat h))
       as [Hin|Hin]; [lia|]|]; simpl.
  - destruct (Z.ltb_spec (Z.of_nat i) (Z.of_nat h)); [lia|].
    unfold slice_rows. simpl. f_equal.
    replace (-2 * Z.of_nat h - 1) with (- (2 * Z.of_nat h + 1)) by lia.
    rewrite py_slice_suffix by lia.
    replace (length rs - Z.to_nat (2 * Z.of_nat h + 1))%nat with 0%nat by lia.
    done.
  - destruct (Z.ltb_spec (Z.of_nat i) (Z.of_nat h)); [|lia].
    unfold slice_rows. simpl. f_equal.
    rewrite py_slice_prefix by lia. apply take_ge. lia.
Qed.

Lemma generator_short_series_witness :
  byFrameGeneratorFactory.generator
    (byFrameGeneratorFactory.make (Z.of_nat 8)) (mkArray 1 [[1]; [2]])
  = [mkArray 1 [[1]; [2]]; mkArray 1 [[1]; [2]]].
Proof.
  apply (generator_short_series 8 (mkArray 1 [[1]; [2]])).
  unfold nrows. simpl. lia.
Defined.

(** C9 as claimed fails: on a two-row series and half-width 8 the guarded
    generation of the specification refuses, the code returns two frames. *)
Lemma generator_short_series_no_error :
  let self := byFrameGeneratorFactory.make 8 in
  let data := mkArray 1 [[1]; [2]] in
  guarded_generator self data = None ∧
  byFrameGeneratorFactory.generator self data = [data; data] ∧
  Some (byFrameGeneratorFactory.generator self data) ≠ guarded_generator self data.
Proof. split; [reflexivity|split; [reflexivity|discriminate]]. Qed.

(** ** Facts of binary64 arithmetic *)

Lemma isnan_nan_mul (k : float) : isnan (PrimFloat.mul NaN k) = true.
Proof.
  unfold isnan, PrimFloat.is_nan. rewrite FloatAxioms.eqb_spec, FloatAxioms.mul_spec. reflexivity.
Qed.

Lemma SFcompare_eq_sym (x y : SpecFloat.spec_float) :
  SpecFloat.SFcompare x y = Some Eq -> SpecFloat.SFcompare y x = Some Eq.
Proof.
  destruct x as [sx| sx| |sx mx ex], y as [sy| sy| |sy my ey]; simpl;
    try done; try (destruct sx; done); try (destruct sy; done).
  - by destruct sx, sy.
  - destruct sx, sy; try done.
    + rewrite (Z.compare_antisym ey ex).
      destruct (ey ?= ex)%Z eqn:He; simpl; try done.
      rewrite !Pos.compare_cont_spec. simpl.
      rewrite (Pos.compare_antisym my mx).
      destruct (my ?= mx)%positive; simpl; done.
    + rewrite (Z.compare_antisym ey ex).
      destruct (ey ?= ex)%Z eqn:He; simpl; try done.
      rewrite !Pos.compare_cont_spec. simpl.
      rewrite (Pos.compare_antisym my mx).
      destruct (my ?= mx)%positive; simpl; done.
Qed.

(** A float equal to a bound is not strictly above or below it. *)
Lemma eqb_not_ltb (x y : float) :
  PrimFloat.eqb x y = true ->
  PrimFloat.ltb x y = false ∧ PrimFloat.ltb y x = false.
Proof.
  rewrite FloatAxioms.eqb_spec, !FloatAxioms.ltb_spec. unfold SpecFloat.SFeqb, SpecFloat.SFltb.
  intros H.
  destruct (SpecFloat.SFcompare (Prim2SF x) (Prim2SF y)) as [[]|] eqn:Hc;
    try done.
  apply SFcompare_eq_sym in Hc. by rewrite Hc.
Qed.

(** ** The robust window test *)

Lemma cut_off_too_few (col : list float) (k : float) (m : Z) :
  count_not_nan col < m -> isnan (cut_off col k m) = true.
Proof.
  intros H. unfold cut_off.
  destruct (Z.leb_spec m (count_not_nan col)) as [?|_]; [lia|].
  apply isnan_nan_mul.
Qed.

Lemma is_outlier_unfold (col : list float) (v k : float) (m : Z) :
  is_outlier col v k m
  = negb (isnan (cut_off col k m) || isnan v ||
          (PrimFloat.ltb (PrimFloat.sub (nanmedian col) (cut_off col k m)) v &&
           PrimFloat.ltb v (PrimFloat.add (nanmedian col) (cut_off col k m)))).
Proof. unfold is_outlier. by destruct (_ || _ || _). Qed.

(** The tested value of a flagged cell is not NaN. *)
Lemma is_outlier_present (col : list float) (v k : float) (m : Z) :
  is_outlier col v k m = true -> isnan v = false.
Proof.
  rewrite is_outlier_unfold. destruct (isnan v); [|done].
  by rewrite orb_true_r.
Qed.

(** C1, as the code has it: when the cut-off is undefined (fewer than
    [min_num_points] values of the window are not NaN, or the cut-off is
    NaN for another reason) or the tested value is NaN, [is_outlier]
    returns [False]: not an outlier. *)
Theorem is_outlier_undefined (col : list float) (v k : float) (m : Z) :
  count_not_nan col < m ∨ isnan (cut_off col k m) = true ∨ isnan v = true ->
  is_outlier col v k m = false.
Proof.
  intros H. rewrite is_outlier_unfold.
  assert (isnan (cut_off col k m) = true ∨ isnan v = true) as [->| ->].
  { destruct H as [H|[H|H]]; auto using cut_off_too_few. }
  - done.
  - by rewrite orb_true_r.
Qed.

Lemma is_outlier_undefined_witness :
  is_outlier [NaN; 4%float] 4%float 5%float 2 = false.
Proof.
  apply (is_outlier_undefined [NaN; 4%float] 4%float 5%float 2).
  left. vm_compute. reflexivity.
Defined.

(** C1 as claimed fails: with an undefined cut-off (no value in the window)
    and with a missing tested value, the result is [False], not [True]. *)
Lemma is_outlier_undefined_not_flagged :
  (count_not_nan [NaN] < 1 ∧ isnan (cut_off [NaN] 5%float 1) = true ∧
   is_outlier [NaN] 1%float 5%float 1 ≠ true) ∧
  (isnan NaN = true ∧
   is_outlier [1%float; 2%float; 3%float] NaN 5%float 1 ≠ true).
Proof. vm_compute. repeat split; discriminate. Qed.

(** C6: with the cut-off and the tested value both defined, a value equal
    to [median - cut_off] or to [median + cut_off] is an outlier, and the
    answer is [False] exactly when
    [median - cut_off < value < median + cut_off]. *)
Theorem is_outlier_boundary (col : list float) (v k : float) (m : Z) :
  isnan (cut_off col k m) = false -> isnan v = false ->
  let lower := PrimFloat.sub (nanmedian col) (cut_off col k m) in
  let upper := PrimFloat.add (nanmedian col) (cut_off col k m) in
  (PrimFloat.eqb v lower = true -> is_outlier col v k m = true) ∧
  (PrimFloat.eqb v upper = true -> is_outlier col v k m = true) ∧
  (is_outlier col v k m = false ↔
   PrimFloat.ltb lower v = true ∧ PrimFloat.ltb v upper = true).
Proof.
  intros Hc Hv lower upper. rewrite is_outlier_unfold, Hc, Hv. simpl.
  fold lower upper. split; [|split].
  - intros [_ ->]%eqb_not_ltb. done.
  - intros [-> _]%eqb_not_ltb. by rewrite andb_false_r.
  - rewrite negb_false_iff, andb_true_iff. done.
Qed.

Lemma is_outlier_boundary_witness :
  let col := [1; 2; 3; 4; 5]%float in
  is_outlier col 2%float 0.675%float 3 = true ∧
  is_outlier col 4%float 0.675%float 3 = true ∧
  is_outlier col 3%float 0.675%float 3 = false.
Proof.
  intros col.
  destruct (is_outlier_boundary col 2%float 0.675%float 3) as (Hlo & _ & _);
    [vm_compute; reflexivity..|].
  destruct (is_outlier_boundary col 4%float 0.675%float 3) as (_ & Hhi & _);
    [vm_compute; reflexivity..|].
  destruct (is_outlier_boundary col 3%float 0.675%float 3) as (_ & _ & Hin);
    [vm_compute; reflexivity..|].
  split; [apply Hlo; vm_compute; reflexivity|].
  split; [apply Hhi; vm_compute; reflexivity|].
  apply Hin. split; vm_compute; reflexivity.
Defined.

(** ** One sweep *)

Section sweep.
Context (self : InterquartileVarianceAlgorithm.t) (data : ndarray float)
        (min_num_points : Z).

Import InterquartileVarianceAlgorithm.

Lemma need_recalc_row (new : list Z) (c1 c2 : ndarray Z) (r : nat) :
  nth r (rows c1) [] = nth r (rows c2) [] ->
  need_recalc new c1 r = need_recalc new c2 r.
Proof. intros H. unfold need_recalc, cell. by rewrite H. Qed.

(** The cache row of a frame is rewritten to the new counts, whether the
    guard of the assignment fires or not. *)
Lemma frame_step_rows (outl : ndarray bool) (cache : ndarray Z)
    (count : nat) (frame : ndarray float) :
  frame_step self data min_num_points (outl, cache) (count, frame)
  = (set_row outl count
       (row_outliers self data frame
          (need_recalc (new_num_missing_data frame) cache count)
          min_num_points count),
     set_row cache count (new_num_missing_data frame)).
Proof.
  unfold frame_step. f_equal. case_bool_decide as Heq; simpl; [|done].
  unfold set_row. destruct cache as [c rs]. simpl in *. f_equal.
  destruct (rs !! count) as [row|] eqn:Hrow.
  - rewrite (nth_lookup_Some _ _ _ _ Hrow) in Heq. subst row.
    by rewrite list_insert_id.
  - apply lookup_ge_None in Hrow. by rewrite list_insert_ge.
Qed.

Lemma insert_middle {A} (l1 l2 : list A) (x y : A) :
  <[length l1 := y]> (l1 ++ x :: l2) = l1 ++ y :: l2.
Proof. by rewrite insert_app_r_alt, Nat.sub_diag by lia. Qed.

Lemma foldl_frame_step (outl0 : ndarray bool) (cache0 : ndarray Z)
    (pre : list (ndarray float)) :
  (length pre <= nrows outl0)%nat -> (length pre <= nrows cache0)%nat ->
  foldl (frame_step self data min_num_points) (outl0, cache0) (imap pair pre)
  = (mkArray (ncols outl0)
       (imap (λ r frame,
                row_outliers self data frame
                  (need_recalc (new_num_missing_data frame) cache0 r)
                  min_num_points r) pre
        ++ drop (length pre) (rows outl0)),
     mkArray (ncols cache0)
       (imap (λ _ frame, new_num_missing_data frame) pre
        ++ drop (length pre) (rows cache0))).
Proof.
  induction pre as [|frame pre IH] using rev_ind; intros Ho Hc.
  - simpl. by destruct outl0, cache0.
  - rewrite length_app in Ho, Hc. simpl in Ho, Hc.
    rewrite imap_app, foldl_app, IH by lia. cbn [imap foldl].
    rewrite Nat.add_0_r, frame_step_rows.
    destruct (lookup_lt_is_Some_2 (rows outl0) (length pre)) as [o Hout];
      [unfold nrows in Ho; lia|].
    destruct (lookup_lt_is_Some_2 (rows cache0) (length pre)) as [c Hcache];
      [unfold nrows in Hc; lia|].
    rewrite (drop_S _ _ _ Hout), (drop_S _ _ _ Hcache).
    rewrite !imap_app, length_app. simpl.
    rewrite !Nat.add_0_r, Nat.add_1_r, <-!app_assoc. simpl.
    unfold set_row. simpl.
    f_equal; f_equal.
    + replace (length pre) with
        (length (imap (λ r frame0,
                  row_outliers self data frame0
                    (need_recalc (new_num_missing_data frame0) cache0 r)
                    min_num_points r) pre)) at 1 by apply length_imap.
      rewrite insert_middle. do 3 f_equal.
      apply need_recalc_row. simpl.
      rewrite app_nth2 by (rewrite length_imap; lia).
      rewrite length_imap, Nat.sub_diag. simpl.
      symmetry. by apply nth_lookup_Some.
    + replace (length pre) with
        (length (imap (λ _ frame0, new_num_missing_data frame0) pre)) at 1
        by apply length_imap.
      by rewrite insert_middle.
Qed.

End sweep.

Lemma nth_map_seq {A} (f : nat -> A) (n c : nat) (d : A) :
  (c < n)%nat -> nth c (map f (seq 0 n)) d = f c.
Proof.
  intros Hc. apply nth_lookup_Some.
  rewrite list_lookup_fmap, lookup_seq_lt by done. done.
Qed.

Lemma generator_ncols {A} gf (data frame : ndarray A) :
  frame ∈ byFrameGeneratorFactory.generator gf data -> ncols frame = ncols data.
Proof.
  intros (r & Hr)%list_elem_of_lookup.
  apply generator_lookup in Hr as [_ ->]. simpl.
  by repeat case_match.
Qed.

(** The two arrays a sweep returns, row by row. *)
Lemma outliers_rows self (data : ndarray float) gf (cache : ndarray Z) :
  nrows cache = nrows data ->
  InterquartileVarianceAlgorithm.outliers self (Array2 data) gf cache
  = (mkArray (ncols data)
       (imap (λ r frame,
                InterquartileVarianceAlgorithm.row_outliers self data frame
                  (InterquartileVarianceAlgorithm.need_recalc
                     (InterquartileVarianceAlgorithm.new_num_missing_data frame)
                     cache r)
                  (Z.min (2 * byFrameGeneratorFactory.span gf + 1)
                         (InterquartileVarianceAlgorithm._min_num_points self)) r)
             (byFrameGeneratorFactory.generator gf data)),
     mkArray (ncols cache)
       (imap (λ _ frame,
                InterquartileVarianceAlgorithm.new_num_missing_data frame)
             (byFrameGeneratorFactory.generator gf data))).
Proof.
  intros Hrows. unfold InterquartileVarianceAlgorithm.outliers.
  rewrite foldl_frame_step.
  - rewrite !drop_ge; [by rewrite !app_nil_r|..];
      rewrite generator_length; unfold nrows, full in *; simpl;
      rewrite ?length_replicate; unfold nrows; lia.
  - rewrite generator_length. unfold nrows, full. simpl.
    by rewrite length_replicate.
  - rewrite generator_length. lia.
Qed.

(** C3: in one sweep, the frame of row [r] decides cell [(r, c)]: when its
    count of values that are not NaN equals [cache[r, c]] the result is
    [False], otherwise it is
    [is_outlier(frame[:, c], data[r, c], stdev_limit, min(2*span+1, min_num_points))];
    in both cases the returned cache holds the new count at [(r, c)]. *)
Theorem sweep_cell self gf (data : ndarray float) (cache : ndarray Z) (r c : nat) :
  rectangular data -> rectangular cache -> shape cache = shape data ->
  (r < nrows data)%nat -> (c < ncols data)%nat ->
  ∃ frame,
    byFrameGeneratorFactory.generator gf data !! r = Some frame ∧
    let new_count := count_not_nan (column NaN frame c) in
    let result :=
      InterquartileVarianceAlgorithm.outliers self (Array2 data) gf cache in
    cell false result.1 r c
    = (if new_count =? cell 0 cache r c then false
       else is_outlier (column NaN frame c) (cell NaN data r c)
              (InterquartileVarianceAlgorithm._stdev_limit self)
              (Z.min (2 * byFrameGeneratorFactory.span gf + 1)
                     (InterquartileVarianceAlgorithm._min_num_points self)))
    ∧ cell 0 result.2 r c = new_count.
Proof.
  intros _ _ Hshape Hr Hc.
  assert (nrows cache = nrows data) as Hrows by (by injection Hshape).
  destruct (lookup_lt_is_Some_2 (byFrameGeneratorFactory.generator gf data) r)
    as [frame Hframe]; [by rewrite generator_length|].
  exists frame. split; [done|]. simpl.
  assert (ncols frame = ncols data) as Hcols.
  { eapply generator_ncols, list_elem_of_lookup_2, Hframe. }
  rewrite outliers_rows by done. unfold cell. simpl.
  assert (∀ B (f : nat -> ndarray float -> list B),
            nth r (imap f (byFrameGeneratorFactory.generator gf data)) []
            = f r frame) as Himap.
  { intros. apply nth_lookup_Some. by rewrite list_lookup_imap, Hframe. }
  rewrite !Himap.
  unfold InterquartileVarianceAlgorithm.row_outliers,
    InterquartileVarianceAlgorithm.need_recalc.
  rewrite !nth_map_seq;
    [|unfold InterquartileVarianceAlgorithm.new_num_missing_data;
      rewrite ?length_map, ?length_seq; lia..].
  unfold InterquartileVarianceAlgorithm.new_num_missing_data.
  rewrite !nth_map_seq by lia. unfold cell.
  split; [|done]. by destruct (_ =? _).
Qed.

Lemma sweep_cell_witness :
  let self := InterquartileVarianceAlgorithm.make 5 20 in
  let gf := byFrameGeneratorFactory.make 1 in
  let data := mkArray 1 [[1]; [1]; [100]; [1]]%float in
  let cache := full 0 (4%nat, 1%nat) in
  ∃ frame,
    byFrameGeneratorFactory.generator gf data !! 2%nat = Some frame ∧
    let new_count := count_not_nan (column NaN frame 0) in
    let result :=
      InterquartileVarianceAlgorithm.outliers self (Array2 data) gf cache in
    cell false result.1 2 0
    = (if new_count =? cell 0 cache 2 0 then false
       else is_outlier (column NaN frame 0) (cell NaN data 2 0)
              (InterquartileVarianceAlgorithm._stdev_limit self)
              (Z.min (2 * byFrameGeneratorFactory.span gf + 1)
                     (InterquartileVarianceAlgorithm._min_num_points self)))
    ∧ cell 0 result.2 2 0 = new_count.
Proof.
  intros self gf data cache.
  apply (sweep_cell self gf data cache 2 0).
  - repeat constructor.
  - repeat constructor.
  - reflexivity.
  - unfold nrows. simpl. lia.
  - simpl. lia.
Defined.

(** ** Shapes and counts of one sweep *)

Lemma row_outliers_length self data frame recalc m r :
  length (InterquartileVarianceAlgorithm.row_outliers self data frame recalc m r)
  = ncols frame.
Proof.
  unfold InterquartileVarianceAlgorithm.row_outliers.
  by rewrite length_map, length_seq.
Qed.

Lemma sweep_shape self gf (data : ndarray float) (cache : ndarray Z) :
  nrows cache = nrows data ->
  let result := InterquartileVarianceAlgorithm.outliers self (Array2 data) gf cache in
  shape result.1 = shape data ∧ rectangular result.1 ∧
  nrows result.2 = nrows data ∧ ncols result.2 = ncols cache.
Proof.
  intros Hrows. simpl. rewrite outliers_rows by done. simpl.
  unfold shape, nrows, rectangular. simpl.
  rewrite !length_imap, generator_length.
  split; [done|]. split; [|done].
  apply Forall_lookup_2. intros r row.
  rewrite list_lookup_imap.
  destruct (byFrameGeneratorFactory.generator gf data !! r) as [frame|] eqn:Hf;
    [|done].
  intros [= <-]. rewrite row_outliers_length.
  eapply generator_ncols, list_elem_of_lookup_2, Hf.
Qed.

(** A sweep only flags cells that hold a value. *)
Lemma sweep_flags_present self gf (data : ndarray float) (cache : ndarray Z) :
  rectangular data -> nrows cache = nrows data ->
  Forall2 (Forall2 (λ (x : float) (b : bool), b = true -> isnan x = false))
    (rows data)
    (rows (InterquartileVarianceAlgorithm.outliers self (Array2 data) gf cache).1).
Proof.
  intros Hrect Hrows. rewrite outliers_rows by done. simpl.
  apply Forall2_same_length_lookup_2.
  { by rewrite length_imap, generator_length. }
  intros r row mrow Hrow. rewrite list_lookup_imap.
  destruct (byFrameGeneratorFactory.generator gf data !! r) as [frame|] eqn:Hf;
    [|done].
  intros [= <-].
  assert (ncols frame = ncols data) as Hcols.
  { eapply generator_ncols, list_elem_of_lookup_2, Hf. }
  assert (length row = ncols data) as Hlen.
  { by eapply (Forall_lookup_1 _ _ _ _ Hrect). }
  apply Forall2_same_length_lookup_2.
  { by rewrite row_outliers_length, Hcols. }
  intros i x b Hx.
  unfold InterquartileVarianceAlgorithm.row_outliers.
  rewrite list_lookup_fmap.
  destruct (seq 0 (ncols frame) !! i) as [j|] eqn:Hj; [|done].
  apply lookup_seq in Hj as [-> _]. simpl. intros [= <-].
  destruct (nth i _ false); [|done].
  intros Hout%is_outlier_present.
  unfold cell in Hout.
  by rewrite (nth_lookup_Some _ _ _ _ Hrow), (nth_lookup_Some _ _ _ _ Hx) in Hout.
Qed.

Lemma set_nan_row_count (xs : list float) (bs : list bool) :
  Forall2 (λ (x : float) (b : bool), b = true -> isnan x = false) xs bs ->
  (length (filter (λ x, isnan x = false)
             (zip_with (λ x (b : bool), if b then NaN else x) xs bs))
   + length (filter (λ b, b = true) bs)
   = length (filter (λ x, isnan x = false) xs))%nat.
Proof.
  induction 1 as [|x b xs bs Hxb _ IH]; [done|].
  simpl. rewrite !filter_cons. destruct b; simpl.
  - rewrite Hxb by done. repeat case_decide; try done. simpl. lia.
  - repeat case_decide; try done; simpl; lia.
Qed.

(** Marking the flagged cells as missing removes exactly as many values as
    the sweep flagged. *)
Lemma set_nan_where_count (data : ndarray float) (mask : ndarray bool) :
  Forall2 (Forall2 (λ (x : float) (b : bool), b = true -> isnan x = false))
    (rows data) (rows mask) ->
  Z.of_nat (count_present (set_nan_where data mask)) + np_sum mask
  = Z.of_nat (count_present data).
Proof.
  unfold count_present, np_sum, set_nan_where. simpl.
  generalize (rows data) (rows mask). clear.
  induction 1 as [|xs bs xss bss H _ IH]; [done|].
  simpl. rewrite !filter_app, !length_app.
  apply set_nan_row_count in H. lia.
Qed.

Lemma set_nan_where_shape (data : ndarray float) (mask : ndarray bool) :
  rectangular data -> rectangular mask -> shape mask = shape data ->
  rectangular (set_nan_where data mask) ∧
  shape (set_nan_where data mask) = shape data.
Proof.
  unfold rectangular, shape, nrows, set_nan_where. simpl.
  intros Hd Hm [= Hrows Hcols]. split.
  - apply Forall_lookup_2. intros r row (xs & bs & -> & Hxs & Hbs)%lookup_zip_with_Some.
    rewrite length_zip_with.
    rewrite (Forall_lookup_1 _ _ _ _ Hd Hxs), (Forall_lookup_1 _ _ _ _ Hm Hbs).
    lia.
  - rewrite length_zip_with. f_equal. lia.
Qed.

Lemma add_mask_shape (acc : ndarray Z) (mask : ndarray bool) :
  rectangular acc -> rectangular mask -> shape mask = shape acc ->
  rectangular (add_mask acc mask) ∧ shape (add_mask acc mask) = shape acc.
Proof.
  unfold rectangular, shape, nrows, add_mask. simpl.
  intros Hd Hm [= Hrows Hcols]. split.
  - apply Forall_lookup_2. intros r row (xs & bs & -> & Hxs & Hbs)%lookup_zip_with_Some.
    rewrite length_zip_with.
    rewrite (Forall_lookup_1 _ _ _ _ Hd Hxs), (Forall_lookup_1 _ _ _ _ Hm Hbs).
    lia.
  - rewrite length_zip_with. f_equal. lia.
Qed.

Lemma full_shape {A} (x : A) (sh : nat * nat) :
  shape (full x sh) = sh ∧ rectangular (full x sh).
Proof.
  destruct sh as [n c]. unfold shape, nrows, rectangular, full. simpl.
  rewrite length_replicate. split; [done|].
  apply Forall_replicate, length_replicate.
Qed.

Lemma astype_bool_shape (a : ndarray Z) : shape (astype_bool a) = shape a.
Proof. unfold shape, nrows, astype_bool. simpl. by rewrite length_map. Qed.

Lemma astype_bool_rectangular (a : ndarray Z) :
  rectangular a -> rectangular (astype_bool a).
Proof.
  unfold rectangular, astype_bool. simpl. intros H.
  apply Forall_fmap. eapply Forall_impl; [exact H|].
  intros row Hrow. simpl. by rewrite length_map.
Qed.

(** ** The loops of the detector *)

Lemma iteration_step self sh data st :
  detector_inv sh data st ->
  ∃ st' brk m,
    OutlierDetector.iteration self data st = Some (st', brk) ∧
    OutlierDetector.sweep_masks st' = OutlierDetector.sweep_masks st ++ [m] ∧
    detector_inv sh data st' ∧
    (∀ l, l ≠ data ->
          OutlierDetector.store st' !! l = OutlierDetector.store st !! l) ∧
    (if brk then np_sum m = 0 ∧ present_in data st' = present_in data st
     else (present_in data st' < present_in data st)%nat).
Proof.
  intros (a & Hdata & Hrect & Hshape & Hcache & Hacc & Hacc_shape).
  unfold OutlierDetector.iteration. rewrite Hdata.
  assert (nrows (OutlierDetector.num_missing_in_frame st) = nrows a) as Hrows.
  { rewrite Hcache, <-Hshape. done. }
  pose proof (sweep_shape (OutlierDetector._outlier_algorithm self)
                (OutlierDetector._generator_factory self) a _ Hrows)
    as (Hm_shape & Hm_rect & Hc_rows & _).
  pose proof (sweep_flags_present (OutlierDetector._outlier_algorithm self)
                (OutlierDetector._generator_factory self) a _ Hrect Hrows)
    as Hflags.
  destruct (InterquartileVarianceAlgorithm.outliers _ _ _ _) as [m cache'].
  simpl in *.
  destruct (add_mask_shape (OutlierDetector.outliers_acc st) m)
    as [Hacc' Hacc_shape']; [done|done|congruence|].
  destruct (Z.eqb_spec (np_sum m) 0) as [Hsum|Hsum].
  - eexists _, true, m. split; [done|]. simpl. split; [done|].
    split; [|split; [done|done]].
    exists a. simpl. rewrite Hc_rows, <-Hshape. repeat split; try done.
    congruence.
  - eexists _, false, m. split; [done|]. simpl. split; [done|].
    destruct (set_nan_where_shape a m) as [Hrect' Hshape'];
      [done|done|congruence|].
    split; [|split].
    + exists (set_nan_where a m). simpl. rewrite lookup_insert_eq.
      rewrite Hc_rows, <-Hshape. repeat split; try done; congruence.
    + intros l Hl. by rewrite lookup_insert_ne.
    + unfold present_in. simpl. rewrite lookup_insert_eq, Hdata. simpl.
      pose proof (set_nan_where_count a m Hflags).
      unfold np_sum in *. lia.
Qed.

(** The [while True] loop ends: every sweep that does not break removes a
    value, so one more unit of fuel than there are values is enough, and
    that also bounds the number of sweeps. *)
Lemma while_true_terminates self sh data (fuel : nat) :
  ∀ st, detector_inv sh data st -> (present_in data st < fuel)%nat ->
  ∃ st', OutlierDetector.while_true fuel self data st = Some st' ∧
         detector_inv sh data st' ∧
         (∀ l, l ≠ data ->
               OutlierDetector.store st' !! l = OutlierDetector.store st !! l) ∧
         (∃ ms last, OutlierDetector.sweep_masks st'
                     = OutlierDetector.sweep_masks st ++ ms ++ [last] ∧
                     (length ms <= present_in data st)%nat ∧ np_sum last = 0).
Proof.
  induction fuel as [|fuel IH]; intros st Hinv Hfuel; [lia|].
  destruct (iteration_step self sh data st Hinv)
    as (st1 & brk & m & Hit & Hmasks & Hinv1 & Hother & Hbrk).
  simpl. rewrite Hit. destruct brk.
  - exists st1. repeat split; try done.
    exists [], m. simpl. split; [done|]. split; [lia|]. by destruct Hbrk.
  - destruct (IH st1 Hinv1) as (st' & Hrun & Hinv' & Hother' & ms & last & Hms & Hlen & Hlast);
      [lia|].
    exists st'. repeat split; try done.
    + intros l Hl. by rewrite Hother', Hother.
    + exists (m :: ms), last. rewrite Hms, Hmasks, <-app_assoc. simpl.
      repeat split; try done. lia.
Qed.

(** The [for] loop ends after at most [n] sweeps. *)
Lemma for_range_terminates self sh data (n : nat) :
  ∀ st, detector_inv sh data st ->
  ∃ st', OutlierDetector.for_range n self data st = Some st' ∧
         detector_inv sh data st' ∧
         (∀ l, l ≠ data ->
               OutlierDetector.store st' !! l = OutlierDetector.store st !! l) ∧
         (∃ ms, OutlierDetector.sweep_masks st'
                = OutlierDetector.sweep_masks st ++ ms ∧ (length ms <= n)%nat).
Proof.
  induction n as [|n IH]; intros st Hinv.
  - exists st. repeat split; try done. exists []. by rewrite app_nil_r.
  - destruct (iteration_step self sh data st Hinv)
      as (st1 & brk & m & Hit & Hmasks & Hinv1 & Hother & Hbrk).
    simpl. rewrite Hit. destruct brk.
    + exists st1. repeat split; try done.
      exists [m]. split; [done|simpl; lia].
    + destruct (IH st1 Hinv1) as (st' & Hrun & Hinv' & Hother' & ms & Hms & Hlen).
      exists st'. repeat split; try done.
      * intros l Hl. by rewrite Hother', Hother.
      * exists (m :: ms). rewrite Hms, Hmasks, <-app_assoc. simpl.
        split; [done|lia].
Qed.

(** ** A whole call *)

Lemma reshape_column_shape (v : list float) :
  shape (reshape_column v) = (length v, 1%nat) ∧ rectangular (reshape_column v).
Proof.
  unfold shape, nrows, rectangular, reshape_column. simpl.
  rewrite length_map. split; [done|]. by apply Forall_fmap, Forall_true.
Qed.

Lemma as_matrix_rectangular (d : pyarray) :
  well_formed d -> rectangular (as_matrix d).
Proof. destruct d; simpl; [intros _; apply reshape_column_shape|done]. Qed.

Lemma count_present_le (a : ndarray float) :
  rectangular a -> (count_present a <= nrows a * ncols a)%nat.
Proof.
  unfold count_present, rectangular, nrows. intros Hrect.
  etrans; [apply length_filter|].
  induction Hrect as [|row rs Hrow _ IH]; simpl; [done|].
  rewrite length_app. lia.
Qed.

(** A call returns: with a cap always, without a cap as soon as the fuel
    exceeds the number of values of the input.  The mask has the shape of
    the matrix, the sweeps are bounded, and every other array of the store,
    as well as a 1-D input, is left as it was. *)
Lemma outliers_run (fuel : nat) self (h : gmap nat pyarray) (data : nat)
    (d : pyarray) (num_of_iterations : option Z) :
  h !! data = Some d -> well_formed d ->
  (num_of_iterations = None -> (count_present (as_matrix d) < fuel)%nat) ->
  ∃ out,
    OutlierDetector.outliers fuel self h data num_of_iterations = Some out ∧
    (shape (OutlierDetector.mask out) = shape (as_matrix d) ∧
     rectangular (OutlierDetector.mask out)) ∧
    match num_of_iterations with
    | None => ∃ ms last, OutlierDetector.sweeps out = ms ++ [last] ∧
                         (length ms <= count_present (as_matrix d))%nat ∧
                         np_sum last = 0
    | Some n => (length (OutlierDetector.sweeps out) <= Z.to_nat n)%nat
    end ∧
    (∀ l, is_Some (h !! l) -> is_1d d = true ∨ l ≠ data ->
          OutlierDetector.store_after out !! l = h !! l).
Proof.
  intros Hd Hwf Hfuel. unfold OutlierDetector.outliers. rewrite Hd.
  set (sh := shape (as_matrix d)).
  set (start := match d with
                | Array1 v =>
                    (<[fresh (dom h) := Array2 (reshape_column v)]> h,
                     fresh (dom h), reshape_column v)
                | Array2 a => (h, data, a)
                end).
  assert (∃ h' data', start = (h', data', as_matrix d) ∧
            h' !! data' = Some (Array2 (as_matrix d)) ∧
            (∀ l, is_Some (h !! l) -> is_1d d = true ∨ l ≠ data ->
                  l ≠ data' ∧ h' !! l = h !! l))
    as (h' & data' & -> & Hdata' & Hframe).
  { destruct d as [v|a]; simpl in *.
    - eexists _, _. split; [done|]. split; [by rewrite lookup_insert_eq|].
      intros l Hl _.
      assert (l ≠ fresh (dom h)) as Hne.
      { intros ->. apply elem_of_dom in Hl. by apply is_fresh in Hl. }
      split; [done|]. by rewrite lookup_insert_ne.
    - eexists _, _. split; [done|]. split; [done|].
      intros l _ [?|?]; done. }
  set (st0 := OutlierDetector.mkState h' (full 0 sh) (full 0 sh) []).
  assert (detector_inv sh data' st0) as Hinv.
  { exists (as_matrix d). simpl. destruct (full_shape 0 sh) as [Hsh Hrect].
    pose proof (f_equal fst Hsh) as Hrows. simpl in Hrows.
    split; [done|]. split; [by apply as_matrix_rectangular|].
    split; [done|]. split; [done|]. split; done. }
  assert (present_in data' st0 = count_present (as_matrix d)) as Hpresent.
  { unfold present_in. simpl. by rewrite Hdata'. }
  cbv beta iota zeta. fold sh. fold st0.
  destruct num_of_iterations as [n|].
  - destruct (for_range_terminates self sh data' (Z.to_nat n) st0 Hinv)
      as (st' & -> & Hinv' & Hother & ms & Hms & Hlen).
    eexists. split; [done|]. simpl.
    destruct Hinv' as (_ & _ & _ & _ & _ & Hrect & Hacc).
    rewrite astype_bool_shape.
    split; [by split; [|apply astype_bool_rectangular]|].
    split; [by rewrite Hms|].
    intros l Hl Hcase. destruct (Hframe l Hl Hcase) as [Hne <-].
    by apply Hother.
  - destruct (while_true_terminates self sh data' fuel st0 Hinv)
      as (st' & -> & Hinv' & Hother & ms & last & Hms & Hlen & Hlast).
    { rewrite Hpresent. by apply Hfuel. }
    eexists. split; [done|]. simpl.
    destruct Hinv' as (_ & _ & _ & _ & _ & Hrect & Hacc).
    rewrite astype_bool_shape.
    split; [by split; [|apply astype_bool_rectangular]|]. split.
    + exists ms, last. rewrite Hms. split; [done|]. split; [lia|done].
    + intros l Hl Hcase. destruct (Hframe l Hl Hcase) as [Hne <-].
      by apply Hother.
Qed.

(** ** When the loops stop *)

Lemma iteration_mask self data st st' brk :
  OutlierDetector.iteration self data st = Some (st', brk) ->
  ∃ m, OutlierDetector.sweep_masks st' = OutlierDetector.sweep_masks st ++ [m] ∧
       if brk then np_sum m = 0 else np_sum m ≠ 0.
Proof.
  unfold OutlierDetector.iteration.
  destruct (OutlierDetector.store st !! data) as [[|a]|]; try done.
  destruct (InterquartileVarianceAlgorithm.outliers _ _ _ _) as [m c].
  destruct (Z.eqb_spec (np_sum m) 0); intros [= <- <-]; by exists m.
Qed.

Lemma while_true_masks self data (fuel : nat) :
  ∀ st st', OutlierDetector.while_true fuel self data st = Some st' ->
  ∃ ms last,
    OutlierDetector.sweep_masks st'
    = OutlierDetector.sweep_masks st ++ ms ++ [last] ∧
    Forall (λ m, np_sum m ≠ 0) ms ∧ np_sum last = 0.
Proof.
  induction fuel as [|fuel IH]; intros st st'; [done|]. simpl.
  destruct (OutlierDetector.iteration self data st) as [[st1 brk]|] eqn:Hit;
    [|done].
  destruct (iteration_mask _ _ _ _ _ Hit) as (m & Hm & Hsum).
  destruct brk.
  - intros [= <-]. by exists [], m.
  - intros (ms & last & Hms & Hall & Hlast)%IH.
    exists (m :: ms), last. rewrite Hms, Hm, <-app_assoc.
    split; [done|]. split; [by constructor|done].
Qed.

Lemma for_range_masks self data (n : nat) :
  ∀ st st', OutlierDetector.for_range n self data st = Some st' ->
  ∃ ms, OutlierDetector.sweep_masks st' = OutlierDetector.sweep_masks st ++ ms ∧
        ((Forall (λ m, np_sum m ≠ 0) ms ∧ length ms = n) ∨
         (∃ front last, ms = front ++ [last] ∧
                        Forall (λ m, np_sum m ≠ 0) front ∧
                        np_sum last = 0 ∧ (length front < n)%nat)).
Proof.
  induction n as [|n IH]; intros st st'; simpl.
  - intros [= <-]. exists []. rewrite app_nil_r. split; [done|]. by left.
  - destruct (OutlierDetector.iteration self data st) as [[st1 brk]|] eqn:Hit;
      [|done].
    destruct (iteration_mask _ _ _ _ _ Hit) as (m & Hm & Hsum).
    destruct brk.
    + intros [= <-]. exists [m]. split; [done|]. right.
      exists [], m. simpl. repeat split; try done. lia.
    + intros (ms & Hms & Hcase)%IH.
      exists (m :: ms). rewrite Hms, Hm, <-app_assoc. split; [done|].
      destruct Hcase as [[Hall Hlen]|(front & last & -> & Hall & Hlast & Hlen)].
      * left. split; [by constructor|simpl; lia].
      * right. exists (m :: front), last. simpl.
        repeat split; try done; [by constructor|lia].
Qed.

Lemma outliers_masks (fuel : nat) self (h : gmap nat pyarray) (data : nat)
    (num_of_iterations : option Z) out :
  OutlierDetector.outliers fuel self h data num_of_iterations = Some out ->
  match num_of_iterations with
  | None =>
      ∃ ms last, OutlierDetector.sweeps out = ms ++ [last] ∧
                 Forall (λ m, np_sum m ≠ 0) ms ∧ np_sum last = 0
  | Some n =>
      (Forall (λ m, np_sum m ≠ 0) (OutlierDetector.sweeps out) ∧
       length (OutlierDetector.sweeps out) = Z.to_nat n) ∨
      (∃ front last,
         OutlierDetector.sweeps out = front ++ [last] ∧
         Forall (λ m, np_sum m ≠ 0) front ∧ np_sum last = 0 ∧
         (length front < Z.to_nat n)%nat)
  end.
Proof.
  unfold OutlierDetector.outliers.
  destruct (h !! data) as [d|]; [|done].
  destruct (match d with
            | Array1 v =>
                (<[fresh (dom h) := Array2 (reshape_column v)]> h,
                 fresh (dom h), reshape_column v)
            | Array2 a => (h, data, a)
            end) as [[h' data'] a].
  destruct num_of_iterations as [n|].
  - destruct (OutlierDetector.for_range _ _ _ _) as [st'|] eqn:Hloop; [|done].
    intros [= <-]. simpl.
    apply for_range_masks in Hloop as (ms & Hms & Hcase).
    simpl in Hms. by rewrite Hms.
  - destruct (OutlierDetector.while_true _ _ _ _) as [st'|] eqn:Hloop; [|done].
    intros [= <-]. simpl.
    apply while_true_masks in Hloop as (ms & last & Hms & Hall & Hlast).
    simpl in Hms. exists ms, last. by rewrite Hms.
Qed.

(** C4, as the code has it: without a cap the call returns (any fuel above
    [rows * columns] is enough).  The sweeps it ran are sweeps that each
    flagged at least one cell, at most as many as the input holds values
    that are not NaN, followed by one last sweep that flagged nothing: at
    most [rows * columns + 1] sweeps. *)
Theorem detect_terminates (fuel : nat) self (h : gmap nat pyarray)
    (data : nat) (d : pyarray) :
  h !! data = Some d -> well_formed d ->
  (nrows (as_matrix d) * ncols (as_matrix d) < fuel)%nat ->
  ∃ out ms last,
    OutlierDetector.outliers fuel self h data None = Some out ∧
    OutlierDetector.sweeps out = ms ++ [last] ∧
    Forall (λ m, np_sum m ≠ 0) ms ∧ np_sum last = 0 ∧
    (length ms <= count_present (as_matrix d))%nat ∧
    (length (OutlierDetector.sweeps out)
     <= nrows (as_matrix d) * ncols (as_matrix d) + 1)%nat.
Proof.
  intros Hd Hwf Hfuel.
  pose proof (count_present_le _ (as_matrix_rectangular d Hwf)) as Hle.
  destruct (outliers_run fuel self h data d None Hd Hwf)
    as (out & Hrun & _ & (ms & last & Hms & Hlen & _) & _); [lia|].
  destruct (outliers_masks _ _ _ _ _ _ Hrun)
    as (ms' & last' & Hms' & Hall & Hlast).
  assert (ms = ms' ∧ last = last') as [<- <-].
  { rewrite Hms in Hms'. by apply app_inj_tail in Hms'. }
  exists out, ms, last. split; [done|]. split; [done|].
  split; [done|]. split; [done|]. split; [done|].
  rewrite Hms, length_app. simpl. lia.
Qed.

Lemma detect_terminates_witness :
  let self := OutlierDetector.make (byFrameGeneratorFactory.make 3)
                (InterquartileVarianceAlgorithm.make 5 3) in
  let d := Array1 [1; 2; 1; 100; 2; 1; 2]%float in
  (∃ out,
     OutlierDetector.outliers 8 self {[ 0%nat := d ]} 0%nat None = Some out ∧
     length (OutlierDetector.sweeps out) = 2%nat) ∧
  ∃ out ms last,
    OutlierDetector.outliers 8 self {[ 0%nat := d ]} 0%nat None = Some out ∧
    OutlierDetector.sweeps out = ms ++ [last] ∧
    Forall (λ m, np_sum m ≠ 0) ms ∧ np_sum last = 0 ∧
    (length ms <= count_present (as_matrix d))%nat ∧
    (length (OutlierDetector.sweeps out)
     <= nrows (as_matrix d) * ncols (as_matrix d) + 1)%nat.
Proof.
  intros self d. split.
  - eexists. split; [vm_compute; reflexivity|reflexivity].
  - apply (detect_terminates 8 self {[ 0%nat := d ]} 0%nat d).
    + reflexivity.
    + exact I.
    + vm_compute. lia.
Defined.

(** C4 as claimed fails: a 1 x 1 matrix holding one value takes two sweeps,
    more than [rows * columns = 1].  With half-width 0 (or with
    [min_num_points = 1]) the lone value is its own window of zero spread:
    the first sweep flags it, the second finds nothing. *)
Lemma detect_sweeps_exceed_cells :
  let h : gmap nat pyarray := {[ 0%nat := Array2 (mkArray 1 [[1%float]]) ]} in
  let narrow := OutlierDetector.make (byFrameGeneratorFactory.make 0)
                  (InterquartileVarianceAlgorithm.make 5 20) in
  let few := OutlierDetector.make (byFrameGeneratorFactory.make 8)
               (InterquartileVarianceAlgorithm.make 5 1) in
  (∃ out, OutlierDetector.outliers 2 narrow h 0%nat None = Some out ∧
          OutlierDetector.sweeps out
          = [mkArray 1 [[true]]; mkArray 1 [[false]]] ∧
          (1 * 1 < length (OutlierDetector.sweeps out))%nat) ∧
  (∃ out, OutlierDetector.outliers 2 few h 0%nat None = Some out ∧
          (1 * 1 < length (OutlierDetector.sweeps out))%nat).
Proof.
  split; eexists; (split; [vm_compute; reflexivity|]).
  - split; [reflexivity|simpl; lia].
  - simpl. lia.
Qed.

(** C8, as the code has it: a call returns a boolean matrix.  For a 2-D
    input it has the shape of the input.  A 1-D input of length [n] is made
    a single-column matrix before processing, and the mask has the shape
    [(n, 1)] of that matrix, not the shape [(n,)] of the input. *)
Theorem detect_shape (fuel : nat) self (h : gmap nat pyarray) (data : nat)
    (d : pyarray) (num_of_iterations : option Z) :
  h !! data = Some d -> well_formed d ->
  (num_of_iterations = None ->
   (nrows (as_matrix d) * ncols (as_matrix d) < fuel)%nat) ->
  ∃ out,
    OutlierDetector.outliers fuel self h data num_of_iterations = Some out ∧
    rectangular (OutlierDetector.mask out) ∧
    match d with
    | Array1 v => as_matrix d = reshape_column v ∧
                  shape (OutlierDetector.mask out) = (length v, 1%nat) ∧
                  shape_tuple (OutlierDetector.mask out) = [length v; 1%nat]
    | Array2 a => shape (OutlierDetector.mask out) = shape a ∧
                  shape_tuple (OutlierDetector.mask out) = data_shape d
    end.
Proof.
  intros Hd Hwf Hfuel.
  pose proof (count_present_le _ (as_matrix_rectangular d Hwf)) as Hle.
  destruct (outliers_run fuel self h data d num_of_iterations Hd Hwf)
    as (out & Hrun & [Hshape Hrect] & _);
    [intros Hn; specialize (Hfuel Hn); lia|].
  exists out. split; [done|]. split; [done|].
  injection Hshape as Hrows Hcols. unfold shape, shape_tuple.
  rewrite Hrows, Hcols.
  destruct d as [v|a]; simpl in *; [|done].
  split; [done|]. unfold nrows. simpl. by rewrite length_map.
Qed.

Lemma detect_shape_witness :
  let self := OutlierDetector.make (byFrameGeneratorFactory.make 1)
                (InterquartileVarianceAlgorithm.make 5 3) in
  let v := [1; 2; 1; 50; 2; 1]%float in
  (∃ out,
     OutlierDetector.outliers 7 self {[ 0%nat := Array1 v ]} 0%nat None = Some out ∧
     rectangular (OutlierDetector.mask out) ∧
     as_matrix (Array1 v) = reshape_column v ∧
     shape (OutlierDetector.mask out) = (length v, 1%nat) ∧
     shape_tuple (OutlierDetector.mask out) = [length v; 1%nat]) ∧
  (∃ out,
     OutlierDetector.outliers 0 self {[ 0%nat := Array2 (reshape_column v) ]}
       0%nat (Some 1) = Some out ∧
     rectangular (OutlierDetector.mask out) ∧
     shape (OutlierDetector.mask out) = shape (reshape_column v) ∧
     shape_tuple (OutlierDetector.mask out)
     = data_shape (Array2 (reshape_column v))).
Proof.
  intros self v. split.
  - apply (detect_shape 7 self {[ 0%nat := Array1 v ]} 0%nat (Array1 v) None).
    + reflexivity.
    + exact I.
    + intros _. vm_compute. lia.
  - apply (detect_shape 0 self {[ 0%nat := Array2 (reshape_column v) ]} 0%nat
             (Array2 (reshape_column v)) (Some 1)).
    + reflexivity.
    + repeat constructor.
    + discriminate.
Defined.

(** C8 as claimed fails on a 1-D input: six values, of shape [(6,)], give a
    mask of shape [(6, 1)], which is not the shape of the data supplied. *)
Lemma detect_1d_mask_is_a_column :
  let self := OutlierDetector.make (byFrameGeneratorFactory.make 1)
                (InterquartileVarianceAlgorithm.make 5 3) in
  let d := Array1 [1; 2; 1; 50; 2; 1]%float in
  ∃ out,
    OutlierDetector.outliers 7 self {[ 0%nat := d ]} 0%nat None = Some out ∧
    data_shape d = [6%nat] ∧
    shape_tuple (OutlierDetector.mask out) = [6%nat; 1%nat] ∧
    shape_tuple (OutlierDetector.mask out) ≠ data_shape d.
Proof.
  intros self d. eexists. split; [vm_compute; reflexivity|].
  split; [reflexivity|]. split; [reflexivity|]. discriminate.
Qed.

(** ** All-missing input *)

Lemma cell_full_zero (sh : nat * nat) (r c : nat) : cell 0 (full 0 sh) r c = 0.
Proof.
  unfold cell, full. simpl.
  destruct (replicate sh.1 (replicate sh.2 0) !! r) as [row|] eqn:Hrow.
  - rewrite (nth_lookup_Some _ _ _ _ Hrow).
    apply lookup_replicate in Hrow as [-> _].
    destruct (replicate sh.2 0 !! c) as [x|] eqn:Hx.
    + rewrite (nth_lookup_Some _ _ _ _ Hx).
      by apply lookup_replicate in Hx as [-> _].
    + apply nth_overflow. by apply lookup_ge_None.
  - rewrite (nth_overflow _ []) by (by apply lookup_ge_None). by destruct c.
Qed.

Lemma all_missing_column (frame : ndarray float) (c : nat) :
  all_missing frame -> count_not_nan (column NaN frame c) = 0.
Proof.
  unfold all_missing, count_not_nan, column. intros Hall.
  induction Hall as [|row rs Hrow _ IH]; [done|].
  simpl. rewrite filter_cons.
  assert (isnan (nth c row NaN) = true) as Hnan.
  { destruct (row !! c) as [x|] eqn:Hx.
    - rewrite (nth_lookup_Some _ _ _ _ Hx).
      by apply (Forall_lookup_1 _ _ _ _ Hrow Hx).
    - by rewrite nth_overflow by (by apply lookup_ge_None). }
  case_decide; [congruence|done].
Qed.

Lemma generator_all_missing gf (data frame : ndarray float) :
  all_missing data ->
  frame ∈ byFrameGeneratorFactory.generator gf data -> all_missing frame.
Proof.
  intros Hall (r & Hr)%list_elem_of_lookup.
  apply generator_lookup in Hr as [_ ->]. simpl.
  unfold all_missing, slice_rows.
  repeat case_match; simpl; by apply py_slice_sublist.
Qed.

Lemma map_const_replicate {A} (x : A) (l : list nat) :
  map (λ _, x) l = replicate (length l) x.
Proof. induction l; simpl; congruence. Qed.

(** Nothing to count in any window, and a cache of zeros: every cell is
    skipped, and the mask of the sweep is all false. *)
Lemma sweep_all_missing self gf (data : ndarray float) :
  all_missing data ->
  (InterquartileVarianceAlgorithm.outliers self (Array2 data) gf
     (full 0 (shape data))).1
  = full false (shape data).
Proof.
  intros Hall. rewrite outliers_rows by apply (f_equal fst (proj1 (full_shape 0 (shape data)))).
  unfold full. simpl. f_equal.
  apply list_eq_same_length with (nrows data);
    [by rewrite length_replicate|by rewrite length_imap, generator_length|].
  intros r row row' Hr. rewrite list_lookup_imap.
  destruct (byFrameGeneratorFactory.generator gf data !! r) as [frame|] eqn:Hf;
    [|done].
  intros [= <-] [-> _]%lookup_replicate.
  assert (frame ∈ byFrameGeneratorFactory.generator gf data) as Hin
    by (by eapply list_elem_of_lookup_2).
  pose proof (generator_all_missing gf data frame Hall Hin) as Hframe.
  rewrite <-(generator_ncols gf data frame Hin).
  unfold InterquartileVarianceAlgorithm.row_outliers.
  transitivity (map (λ _ : nat, false) (seq 0 (ncols frame)));
    [|by rewrite map_const_replicate, length_seq].
  apply map_ext_in. intros c Hc.
  apply in_seq in Hc.
  unfold InterquartileVarianceAlgorithm.need_recalc,
    InterquartileVarianceAlgorithm.new_num_missing_data.
  rewrite nth_map_seq by (rewrite length_map, length_seq; lia).
  rewrite nth_map_seq by lia.
  rewrite all_missing_column by done.
  pose proof (cell_full_zero (nrows data, ncols frame) r c) as Hzero.
  unfold full in Hzero. simpl in Hzero. by rewrite Hzero.
Qed.

Lemma np_sum_full_false (sh : nat * nat) : np_sum (full false sh) = 0.
Proof.
  destruct sh as [n c]. unfold np_sum, full. simpl.
  induction n as [|n IH]; [done|].
  simpl. rewrite filter_app, length_app.
  assert (filter (λ b : bool, b = true) (replicate c false) = []) as ->.
  { clear. induction c as [|c IH]; [done|].
    simpl. rewrite filter_cons. by case_decide. }
  simpl. lia.
Qed.

Lemma add_mask_full (sh : nat * nat) :
  add_mask (full 0 sh) (full false sh) = full 0 sh.
Proof.
  destruct sh as [n c]. unfold add_mask, full. simpl. f_equal.
  induction n as [|n IH]; [done|]. simpl. f_equal; [|done].
  clear. induction c as [|c IH]; [done|]. simpl. by f_equal.
Qed.

Lemma astype_bool_full (sh : nat * nat) :
  astype_bool (full 0 sh) = full false sh.
Proof.
  destruct sh as [n c]. unfold astype_bool, full. simpl. f_equal.
  induction n as [|n IH]; [done|]. simpl. f_equal; [|done].
  clear. induction c as [|c IH]; [done|]. simpl. by f_equal.
Qed.

(** C7: on an input whose entries are all NaN, a call without a cap runs
    exactly one sweep, the mask of that sweep is all false, and so is the
    mask it returns. *)
Theorem detect_all_missing (fuel : nat) self (h : gmap nat pyarray)
    (data : nat) (d : pyarray) :
  h !! data = Some d -> all_missing (as_matrix d) -> (0 < fuel)%nat ->
  ∃ out,
    OutlierDetector.outliers fuel self h data None = Some out ∧
    OutlierDetector.sweeps out = [full false (shape (as_matrix d))] ∧
    OutlierDetector.mask out = full false (shape (as_matrix d)).
Proof.
  intros Hd Hall Hfuel. destruct fuel as [|fuel]; [lia|].
  unfold OutlierDetector.outliers. rewrite Hd.
  assert (∀ h' data', h' !! data' = Some (Array2 (as_matrix d)) ->
    OutlierDetector.iteration self data'
      (OutlierDetector.mkState h' (full 0 (shape (as_matrix d)))
         (full 0 (shape (as_matrix d))) [])
    = Some (OutlierDetector.mkState h' (full 0 (shape (as_matrix d)))
              (InterquartileVarianceAlgorithm.outliers
                 (OutlierDetector._outlier_algorithm self)
                 (Array2 (as_matrix d)) (OutlierDetector._generator_factory self)
                 (full 0 (shape (as_matrix d)))).2
              [full false (shape (as_matrix d))], true)) as Hit.
  { intros h' data' Hdata'. unfold OutlierDetector.iteration. simpl.
    rewrite Hdata'.
    pose proof (sweep_all_missing (OutlierDetector._outlier_algorithm self)
                  (OutlierDetector._generator_factory self) _ Hall) as Hmask.
    destruct (InterquartileVarianceAlgorithm.outliers _ _ _ _) as [m cache'].
    simpl in Hmask. subst m. simpl.
    by rewrite np_sum_full_false, add_mask_full. }
  destruct d as [v|a]; simpl in *.
  - rewrite Hit by apply lookup_insert_eq. simpl.
    eexists. split; [done|]. simpl. by rewrite astype_bool_full.
  - rewrite Hit by done. simpl.
    eexists. split; [done|]. simpl. by rewrite astype_bool_full.
Qed.

Lemma detect_all_missing_witness :
  let self := OutlierDetector.make (byFrameGeneratorFactory.make 1)
                (InterquartileVarianceAlgorithm.make 5 3) in
  let a := mkArray 2 [[NaN; NaN]; [NaN; NaN]; [NaN; NaN]] in
  ∃ out,
    OutlierDetector.outliers 1 self {[ 0%nat := Array2 a ]} 0%nat None = Some out ∧
    OutlierDetector.sweeps out = [full false (shape a)] ∧
    OutlierDetector.mask out = full false (shape a).
Proof.
  intros self a.
  apply (detect_all_missing 1 self {[ 0%nat := Array2 a ]} 0%nat (Array2 a)).
  - reflexivity.
  - repeat constructor.
  - lia.
Defined.

(** ** FUC curves *)

(** The generator loop ends and yields index pairs inside the series. *)
Lemma curve_loop_total (FUC_data : list Z) (bp : Z) (fuel : nat) :
  ∀ i j ign,
    0 <= i < j -> j <= Z.max (Z.of_nat (length FUC_data)) 1 ->
    Z.max (Z.of_nat (length FUC_data) - j) 0 + 1 <= Z.of_nat fuel ->
    ∃ curves,
      curve_loop fuel FUC_data bp i j ign = Some curves ∧
      Forall (λ c, 0 <= c.1 <= c.2 ∧ c.2 < Z.max (Z.of_nat (length FUC_data)) 1)
             curves.
Proof.
  induction fuel as [|fuel IH]; intros i j ign Hij Hj Hfuel; [lia|].
  simpl. destruct (Z.ltb_spec j (Z.of_nat (length FUC_data))) as [Hlt|Hge].
  - destruct (_ <? Z.abs _).
    + destruct ign; simpl.
      * apply IH; lia.
      * destruct (IH j (j + 1) false) as (curves & -> & Hall); [lia..|].
        eexists. split; [done|]. constructor; [simpl; lia|done].
    + apply IH; lia.
  - eexists. split; [done|]. constructor; [simpl; lia|done].
Qed.

Lemma FUC_curve_generator_total (FUC_data : list Z) (bp : Z) (ign : bool) :
  ∃ curves,
    FUC_curve_generator FUC_data bp ign = Some curves ∧
    Forall (λ c, 0 <= c.1 <= c.2 ∧ c.2 < Z.max (Z.of_nat (length FUC_data)) 1)
           curves.
Proof. apply curve_loop_total; lia. Qed.

Lemma try_map_ext {A B} (f g : A -> result B) (l : list A) :
  Forall (λ x, f x = g x) l -> try_map f l = try_map g l.
Proof.
  induction 1 as [|x l Hx _ IH]; simpl; [done|]. by rewrite Hx, IH.
Qed.


(** Three curves of a six-row series: the first has rows 0 to 2 and is
    tested on rows 0 and 1 only, the second is a single point. *)
Example qc_three_curves :
  let series : list (Z * float) :=
    [(0, 400%float); (1, 401%float); (2, 402%float);
     (100, 390%float); (200, 380%float); (201, 381%float)] in
  FUC_curve_generator (map fst series) 10 false = Some [(0, 2); (3, 3); (4, 5)] ∧
  tested_measurements series 0 2 = [400; 401]%float ∧
  tested_measurements series 3 3 = [390]%float ∧
  tested_measurements series 4 5 = [380]%float.
Proof. repeat split. Qed.

(** ** The caller's array *)

(** The loops write to the array [data] refers to, and to no other. *)
Lemma iteration_frame self data st st' brk (l : nat) :
  OutlierDetector.iteration self data st = Some (st', brk) -> l ≠ data ->
  OutlierDetector.store st' !! l = OutlierDetector.store st !! l.
Proof.
  unfold OutlierDetector.iteration. intros Hit Hl.
  destruct (OutlierDetector.store st !! data) as [[|a]|]; try done.
  destruct (InterquartileVarianceAlgorithm.outliers _ _ _ _) as [m c].
  destruct (np_sum m =? 0); injection Hit as <- <-; simpl; [done|].
  by rewrite lookup_insert_ne.
Qed.

Lemma while_true_frame self data (l : nat) (fuel : nat) :
  ∀ st st', OutlierDetector.while_true fuel self data st = Some st' ->
            l ≠ data ->
            OutlierDetector.store st' !! l = OutlierDetector.store st !! l.
Proof.
  induction fuel as [|fuel IH]; intros st st' Hrun Hl; [done|].
  simpl in Hrun.
  destruct (OutlierDetector.iteration self data st) as [[st1 brk]|] eqn:Hit;
    [|done].
  pose proof (iteration_frame _ _ _ _ _ l Hit Hl) as Hstep.
  destruct brk; [by injection Hrun as <-|].
  by rewrite (IH _ _ Hrun Hl).
Qed.

Lemma for_range_frame self data (l : nat) (n : nat) :
  ∀ st st', OutlierDetector.for_range n self data st = Some st' ->
            l ≠ data ->
            OutlierDetector.store st' !! l = OutlierDetector.store st !! l.
Proof.
  induction n as [|n IH]; intros st st' Hrun Hl; [by injection Hrun as <-|].
  simpl in Hrun.
  destruct (OutlierDetector.iteration self data st) as [[st1 brk]|] eqn:Hit;
    [|done].
  pose proof (iteration_frame _ _ _ _ _ l Hit Hl) as Hstep.
  destruct brk; [by injection Hrun as <-|].
  by rewrite (IH _ _ Hrun Hl).
Qed.

(** A 1-D input is copied before the loop: the caller's array is as it was
    after the call. *)
Lemma detect_1d_input_untouched (fuel : nat) self (h : gmap nat pyarray)
    (data : nat) (v : list float) (num_of_iterations : option Z) out :
  h !! data = Some (Array1 v) ->
  OutlierDetector.outliers fuel self h data num_of_iterations = Some out ->
  OutlierDetector.store_after out !! data = Some (Array1 v).
Proof.
  intros Hd Hout.
  assert (data ≠ fresh (dom h)) as Hne.
  { intros Heq. apply (is_fresh (dom h)). rewrite <-Heq.
    apply elem_of_dom. by rewrite Hd. }
  unfold OutlierDetector.outliers in Hout. rewrite Hd in Hout.
  cbv beta iota zeta in Hout.
  destruct num_of_iterations as [n|].
  - destruct (OutlierDetector.for_range _ _ _ _) as [st'|] eqn:Hrun; [|done].
    injection Hout as <-. simpl.
    rewrite (for_range_frame _ _ _ _ _ _ Hrun Hne). simpl.
    by rewrite lookup_insert_ne.
  - destruct (OutlierDetector.while_true _ _ _ _) as [st'|] eqn:Hrun; [|done].
    injection Hout as <-. simpl.
    rewrite (while_true_frame _ _ _ _ _ _ Hrun Hne). simpl.
    by rewrite lookup_insert_ne.
Qed.


(** What the call leaves in a 2-D input, in general. *)

Lemma set_nan_row_twice (xs : list float) (accs : list Z) (ms : list bool) :
  Forall (λ x, 0 <= x) accs ->
  zip_with (λ x (b : bool), if b then NaN else x)
    (zip_with (λ x (b : bool), if b then NaN else x) xs
       (map (λ x, negb (x =? 0)) accs)) ms
  = zip_with (λ x (b : bool), if b then NaN else x) xs
      (map (λ x, negb (x =? 0))
         (zip_with (λ x (b : bool), if b then x + 1 else x) accs ms)).
Proof.
  intros Hacc. revert xs ms.
  induction Hacc as [|c accs Hc _ IH]; intros [|x xs] [|b ms]; simpl; try done.
  f_equal; [|apply IH]. destruct b; [|done].
  by destruct (Z.eqb_spec (c + 1) 0); [lia|].
Qed.

Lemma set_nan_where_twice (a0 : ndarray float) (acc : ndarray Z)
    (m : ndarray bool) :
  Forall (Forall (λ x, 0 <= x)) (rows acc) ->
  set_nan_where (set_nan_where a0 (astype_bool acc)) m
  = set_nan_where a0 (astype_bool (add_mask acc m)).
Proof.
  unfold set_nan_where, astype_bool, add_mask. simpl. intros Hacc. f_equal.
  generalize (rows a0) (rows m).
  induction Hacc as [|cs css Hcs _ IH]; intros [|xs xss] [|ms mss]; simpl;
    try done.
  f_equal; [by apply set_nan_row_twice|apply IH].
Qed.

Lemma add_mask_nonneg (acc : ndarray Z) (m : ndarray bool) :
  Forall (Forall (λ x, 0 <= x)) (rows acc) ->
  Forall (Forall (λ x, 0 <= x)) (rows (add_mask acc m)).
Proof.
  unfold add_mask. simpl. intros Hacc. generalize (rows m).
  induction Hacc as [|cs css Hcs _ IH]; intros [|ms mss]; simpl;
    try constructor; [|apply IH].
  clear -Hcs. revert ms.
  induction Hcs as [|c cs Hc _ IH]; intros [|b ms]; simpl;
    try constructor; [destruct b; lia|apply IH].
Qed.

Lemma set_nan_row_none (xs : list float) (ms : list bool) :
  length ms = length xs -> filter (λ b, b = true) ms = [] ->
  zip_with (λ x (b : bool), if b then NaN else x) xs ms = xs.
Proof.
  revert ms. induction xs as [|x xs IH]; intros [|b ms]; simpl; try done.
  intros [= Hlen]. rewrite filter_cons. destruct b; simpl; [done|].
  intros Hnone. f_equal. by apply IH.
Qed.

(** A mask without a true cell marks nothing. *)
Lemma set_nan_where_none (a : ndarray float) (m : ndarray bool) :
  rectangular a -> rectangular m -> shape m = shape a -> np_sum m = 0 ->
  set_nan_where a m = a.
Proof.
  destruct a as [c xss], m as [c' mss].
  unfold rectangular, shape, nrows, np_sum, set_nan_where. simpl.
  intros Ha Hm [= Hrows ->] Hsum. f_equal.
  assert (filter (λ b, b = true) (concat mss) = []) as Hnone
    by (apply length_zero_iff_nil; lia).
  clear Hsum. revert mss Hm Hrows Hnone.
  induction Ha as [|xs xss Hxs _ IH]; intros [|ms mss] Hm; simpl; try done.
  intros [= Hrows]. rewrite filter_app.
  intros [Hms Hmss]%app_eq_nil.
  apply Forall_cons in Hm as [Hlen Hm].
  f_equal; [apply set_nan_row_none; congruence|by apply IH].
Qed.

Lemma iteration_marked self sh (a0 : ndarray float) data st st' brk :
  detector_inv sh data st -> marked a0 data st ->
  OutlierDetector.iteration self data st = Some (st', brk) ->
  marked a0 data st'.
Proof.
  intros (a & Hdata & Hrect & Hshape & Hcache & Hacc & Hacc_shape)
         [Hmarked Hnonneg].
  unfold OutlierDetector.iteration. rewrite Hdata.
  assert (nrows (OutlierDetector.num_missing_in_frame st) = nrows a) as Hrows.
  { rewrite Hcache, <-Hshape. done. }
  pose proof (sweep_shape (OutlierDetector._outlier_algorithm self)
                (OutlierDetector._generator_factory self) a _ Hrows)
    as (Hm_shape & Hm_rect & _).
  destruct (InterquartileVarianceAlgorithm.outliers _ _ _ _) as [m cache'].
  simpl in *.
  assert (a = set_nan_where a0 (astype_bool (OutlierDetector.outliers_acc st)))
    as Ha by congruence.
  destruct (Z.eqb_spec (np_sum m) 0) as [Hsum|Hsum];
    intros [= <- <-]; split; simpl; try by apply add_mask_nonneg.
  - rewrite Hdata. do 2 f_equal.
    rewrite <-set_nan_where_twice, <-Ha by done.
    symmetry. by apply set_nan_where_none.
  - rewrite lookup_insert_eq. do 2 f_equal.
    by rewrite <-set_nan_where_twice, <-Ha.
Qed.

Lemma while_true_marked self sh (a0 : ndarray float) data (fuel : nat) :
  ∀ st st', detector_inv sh data st -> marked a0 data st ->
            OutlierDetector.while_true fuel self data st = Some st' ->
            marked a0 data st'.
Proof.
  induction fuel as [|fuel IH]; intros st st' Hinv Hmarked; [done|].
  destruct (iteration_step self sh data st Hinv)
    as (st1 & brk & m & Hit & _ & Hinv1 & _).
  simpl. rewrite Hit.
  pose proof (iteration_marked _ _ _ _ _ _ _ Hinv Hmarked Hit) as Hmarked1.
  destruct brk; [by intros [= <-]|]. by apply IH.
Qed.

Lemma for_range_marked self sh (a0 : ndarray float) data (n : nat) :
  ∀ st st', detector_inv sh data st -> marked a0 data st ->
            OutlierDetector.for_range n self data st = Some st' ->
            marked a0 data st'.
Proof.
  induction n as [|n IH]; intros st st' Hinv Hmarked; [by intros [= <-]|].
  destruct (iteration_step self sh data st Hinv)
    as (st1 & brk & m & Hit & _ & Hinv1 & _).
  simpl. rewrite Hit.
  pose proof (iteration_marked _ _ _ _ _ _ _ Hinv Hmarked Hit) as Hmarked1.
  destruct brk; [by intros [= <-]|]. by apply IH.
Qed.

(** With or without a cap, the call leaves the caller's 2-D array with NaN
    in exactly the cells of the mask it returns. *)
Lemma detect_2d_input_marked (fuel : nat) self (h : gmap nat pyarray)
    (data : nat) (a : ndarray float) (num_of_iterations : option Z) out :
  h !! data = Some (Array2 a) -> rectangular a ->
  OutlierDetector.outliers fuel self h data num_of_iterations = Some out ->
  OutlierDetector.store_after out !! data
  = Some (Array2 (set_nan_where a (OutlierDetector.mask out))).
Proof.
  intros Hd Hrect Hout.
  unfold OutlierDetector.outliers in Hout. rewrite Hd in Hout.
  cbv beta iota zeta in Hout.
  set (st0 := OutlierDetector.mkState h (full 0 (shape a)) (full 0 (shape a)) [])
    in Hout.
  destruct (full_shape 0 (shape a)) as [Hsh Hfull].
  assert (detector_inv (shape a) data st0) as Hinv.
  { exists a. pose proof (f_equal fst Hsh). repeat split; done. }
  assert (marked a data st0) as Hmarked.
  { split; simpl.
    - rewrite Hd, astype_bool_full. do 2 f_equal. symmetry.
      destruct (full_shape false (shape a)) as [Hsh' Hfull'].
      apply set_nan_where_none; try done. apply np_sum_full_false.
    - unfold full. simpl. apply Forall_replicate, Forall_replicate. lia. }
  destruct num_of_iterations as [n|].
  - destruct (OutlierDetector.for_range _ _ _ _) as [st'|] eqn:Hrun; [|done].
    injection Hout as <-. simpl.
    by destruct (for_range_marked _ _ _ _ _ _ _ Hinv Hmarked Hrun).
  - destruct (OutlierDetector.while_true _ _ _ _) as [st'|] eqn:Hrun; [|done].
    injection Hout as <-. simpl.
    by destruct (while_true_marked _ _ _ _ _ _ _ Hinv Hmarked Hrun).
Qed.

(** C2 fails on a 2-D input.  With the default detector (half-width 8,
    limit 5, 20 points), a single-column matrix of 17 rows with a spike in
    row 8 is flagged there, and the caller's own array holds NaN in row 8
    after the call: [data[outlier_truth_matrix] = float('nan')] writes
    through the caller's reference. *)
Theorem detect_overwrites_2d_input :
  let self := OutlierDetector.make (byFrameGeneratorFactory.make 8)
                (InterquartileVarianceAlgorithm.make 5 20) in
  let before := mkArray 1 [[1]; [2]; [1]; [2]; [1]; [2]; [1]; [2]; [100];
                           [2]; [1]; [2]; [1]; [2]; [1]; [2]; [1]]%float in
  let after := mkArray 1 [[1]; [2]; [1]; [2]; [1]; [2]; [1]; [2]; [NaN];
                          [2]; [1]; [2]; [1]; [2]; [1]; [2]; [1]]%float in
  let h : gmap nat pyarray := {[ 0%nat := Array2 before ]} in
  ∃ out,
    OutlierDetector.outliers 18 self h 0%nat None = Some out ∧
    cell false (OutlierDetector.mask out) 8 0 = true ∧
    OutlierDetector.store_after out !! 0%nat = Some (Array2 after) ∧
    cell NaN before 8 0 = 100%float ∧
    isnan (cell NaN after 8 0) = true ∧
    OutlierDetector.store_after out !! 0%nat ≠ h !! 0%nat.
Proof.
  intros self before after h.
  eexists. split; [vm_compute; reflexivity|].
  split; [reflexivity|]. split; [reflexivity|].
  split; [reflexivity|]. split; [reflexivity|].
  intros Heq.
  apply (f_equal (λ o, match o with
                       | Some (Array2 a) => isnan (cell NaN a 8 0)
                       | _ => false
                       end)) in Heq.
  vm_compute in Heq. discriminate.
Qed.

(** * Further properties of the code *)

(** ** Frames *)

Lemma generator_block {A} (h : nat) (data : ndarray A) (i : nat) :
  (i < nrows data)%nat ->
  byFrameGeneratorFactory.generator
    (byFrameGeneratorFactory.make (Z.of_nat h)) data !! i
  = Some (block data (frame_start h (nrows data) i) (2 * h + 1)).
Proof.
  intros Hi.
  destruct (byFrameGeneratorFactory.generator _ data !! i) as [w|] eqn:Hw.
  2:{ apply lookup_ge_None in Hw. rewrite generator_length in Hw. lia. }
  f_equal. apply generator_lookup in Hw as [_ Hw]. simpl in Hw. subst w.
  unfold frame_start, block, slice_rows. unfold nrows in *.
  destruct (Nat.ltb_spec i h) as [Hih|Hih].
  - destruct (Z.leb_spec (Z.of_nat h) (Z.of_nat i)); [lia|]. simpl.
    destruct (Z.ltb_spec (Z.of_nat i) (Z.of_nat h)); [|lia].
    f_equal. rewrite py_slice_prefix by lia. simpl. f_equal. lia.
  - destruct (Z.leb_spec (Z.of_nat h) (Z.of_nat i)); [|lia]. simpl.
    destruct (Nat.ltb_spec i (length (rows data) - h)) as [Hin|Hin].
    + destruct (Z.ltb_spec (Z.of_nat i)
                  (Z.of_nat (length (rows data)) - Z.of_nat h)); [|lia].
      f_equal. rewrite py_slice_between by lia.
      f_equal; [lia|f_equal; lia].
    + destruct (Z.ltb_spec (Z.of_nat i)
                  (Z.of_nat (length (rows data)) - Z.of_nat h)); [lia|].
      destruct (Z.ltb_spec (Z.of_nat i) (Z.of_nat h)); [lia|].
      f_equal.
      replace (-2 * Z.of_nat h - 1) with (- (2 * Z.of_nat h + 1)) by lia.
      rewrite py_slice_suffix by lia.
      rewrite take_ge by (rewrite length_drop; lia).
      f_equal. lia.
Qed.

(** X1: for a half-width [h >= 0], whatever the length of the series, the
    frame of row [i] is a block of at most [2h+1] consecutive rows that
    contains row [i] itself. *)
Theorem frame_contains_its_row {A} (h : nat) (data : ndarray A) (i : nat)
    (row : list A) :
  rows data !! i = Some row ->
  ∃ frame lo,
    byFrameGeneratorFactory.generator
      (byFrameGeneratorFactory.make (Z.of_nat h)) data !! i = Some frame ∧
    rows frame = take (2 * h + 1) (drop lo (rows data)) ∧
    (lo <= i < lo + (2 * h + 1))%nat ∧
    rows frame !! (i - lo)%nat = Some row.
Proof.
  intros Hrow. pose proof (lookup_lt_Some _ _ _ Hrow) as Hi.
  exists (block data (frame_start h (nrows data) i) (2 * h + 1)),
         (frame_start h (nrows data) i).
  split; [by apply generator_block|]. split; [done|].
  assert (frame_start h (nrows data) i <= i
          < frame_start h (nrows data) i + (2 * h + 1))%nat as Hlo.
  { unfold frame_start, nrows.
    destruct (Nat.ltb_spec i h); [lia|].
    destruct (Nat.ltb_spec i (length (rows data) - h)); lia. }
  split; [done|]. simpl.
  rewrite lookup_take_lt by lia. rewrite lookup_drop.
  rewrite <-Hrow. f_equal. lia.
Qed.

Lemma frame_contains_its_row_witness :
  let data := mkArray 1 [[1]; [2]; [3]; [4]; [5]; [6]] in
  ∃ frame lo,
    byFrameGeneratorFactory.generator
      (byFrameGeneratorFactory.make (Z.of_nat 2)) data !! 5%nat = Some frame ∧
    rows frame = take (2 * 2 + 1) (drop lo (rows data)) ∧
    (lo <= 5 < lo + (2 * 2 + 1))%nat ∧
    rows frame !! (5 - lo)%nat = Some [6].
Proof.
  intros data.
  apply (frame_contains_its_row 2 data 5 [6]). reflexivity.
Defined.

(** ** More on one sweep *)

Lemma nth_true_lookup (l : list bool) (c : nat) :
  nth c l false = true -> l !! c = Some true.
Proof.
  intros H. destruct (l !! c) as [b|] eqn:Hb.
  - by rewrite (nth_lookup_Some _ _ _ _ Hb) in H; subst.
  - rewrite nth_overflow in H by (by apply lookup_ge_None). done.
Qed.

Lemma cell_true_lookup (m : ndarray bool) (r c : nat) :
  cell false m r c = true ->
  ∃ row, rows m !! r = Some row ∧ row !! c = Some true.
Proof.
  unfold cell. intros H.
  destruct (rows m !! r) as [row|] eqn:Hrow.
  - rewrite (nth_lookup_Some _ _ _ _ Hrow) in H.
    exists row. split; [done|]. by apply nth_true_lookup.
  - rewrite (nth_overflow (rows m)) in H by (by apply lookup_ge_None).
    by destruct c.
Qed.

(** X2: one sweep never flags a cell that is NaN. *)
Theorem sweep_never_flags_missing self gf (data : ndarray float)
    (cache : ndarray Z) (r c : nat) :
  rectangular data -> nrows cache = nrows data ->
  cell false
    (InterquartileVarianceAlgorithm.outliers self (Array2 data) gf cache).1 r c
  = true ->
  isnan (cell NaN data r c) = false.
Proof.
  intros Hrect Hrows (mrow & Hmrow & Hb)%cell_true_lookup.
  pose proof (sweep_flags_present self gf data cache Hrect Hrows) as Hflags.
  destruct (Forall2_lookup_r _ _ _ _ _ Hflags Hmrow) as (row & Hrow & Hcells).
  destruct (Forall2_lookup_r _ _ _ _ _ Hcells Hb) as (x & Hx & Hpresent).
  unfold cell.
  rewrite (nth_lookup_Some _ _ _ _ Hrow), (nth_lookup_Some _ _ _ _ Hx).
  by apply Hpresent.
Qed.

Lemma sweep_never_flags_missing_witness :
  let self := InterquartileVarianceAlgorithm.make 5 3 in
  let gf := byFrameGeneratorFactory.make 3 in
  let data := mkArray 1 [[1]; [2]; [1]; [100]; [2]; [1]; [2]]%float in
  isnan (cell NaN data 3 0) = false.
Proof.
  intros self gf data.
  apply (sweep_never_flags_missing self gf data (full 0 (7%nat, 1%nat)) 3 0).
  - repeat constructor.
  - reflexivity.
  - vm_compute. reflexivity.
Defined.

(** X3: the memoization.  With a cache of the shape of the data, a second
    sweep over the same data, with the cache the first sweep returned,
    recomputes nothing: its mask is all false and the cache is unchanged. *)
Theorem sweep_rerun_skips_everything self gf (data : ndarray float)
    (cache : ndarray Z) :
  rectangular data -> rectangular cache -> shape cache = shape data ->
  let first :=
    InterquartileVarianceAlgorithm.outliers self (Array2 data) gf cache in
  InterquartileVarianceAlgorithm.outliers self (Array2 data) gf first.2
  = (full false (shape data), first.2).
Proof.
  intros _ _ Hshape first.
  assert (nrows cache = nrows data) as Hrows by (by injection Hshape).
  pose proof (sweep_shape self gf data cache Hrows) as (_ & _ & Hrows1 & _).
  fold first in Hrows1.
  rewrite (outliers_rows self data gf first.2 Hrows1).
  unfold first. rewrite (outliers_rows self data gf cache Hrows). simpl.
  f_equal. unfold full. simpl. f_equal.
  apply list_eq_same_length with (nrows data);
    [by rewrite length_replicate|by rewrite length_imap, generator_length|].
  intros r row row' Hr. rewrite list_lookup_imap.
  destruct (byFrameGeneratorFactory.generator gf data !! r) as [frame|] eqn:Hf;
    [|done].
  intros [= <-] [-> _]%lookup_replicate.
  assert (frame ∈ byFrameGeneratorFactory.generator gf data) as Hin
    by (by eapply list_elem_of_lookup_2).
  rewrite <-(generator_ncols gf data frame Hin).
  unfold InterquartileVarianceAlgorithm.row_outliers.
  transitivity (map (λ _ : nat, false) (seq 0 (ncols frame)));
    [|by rewrite map_const_replicate, length_seq].
  apply map_ext_in. intros c Hc. apply in_seq in Hc.
  unfold InterquartileVarianceAlgorithm.need_recalc.
  assert (length (InterquartileVarianceAlgorithm.new_num_missing_data frame)
          = ncols frame) as Hlen.
  { unfold InterquartileVarianceAlgorithm.new_num_missing_data.
    by rewrite length_map, length_seq. }
  rewrite nth_map_seq by lia.
  unfold cell. simpl.
  rewrite (nth_lookup_Some _ r [] (InterquartileVarianceAlgorithm.new_num_missing_data frame))
    by (by rewrite list_lookup_imap, Hf).
  by rewrite Z.eqb_refl.
Qed.

Lemma sweep_rerun_skips_everything_witness :
  let self := InterquartileVarianceAlgorithm.make 5 3 in
  let gf := byFrameGeneratorFactory.make 3 in
  let data := mkArray 1 [[1]; [2]; [1]; [100]; [2]; [1]; [2]]%float in
  let first :=
    InterquartileVarianceAlgorithm.outliers self (Array2 data) gf
      (full 0 (7%nat, 1%nat)) in
  first.1 = mkArray 1 [[false]; [false]; [false]; [true]; [false]; [false];
                       [false]] ∧
  InterquartileVarianceAlgorithm.outliers self (Array2 data) gf first.2
  = (full false (shape data), first.2).
Proof.
  intros self gf data first. split; [vm_compute; reflexivity|].
  apply (sweep_rerun_skips_everything self gf data (full 0 (7%nat, 1%nat))).
  - repeat constructor.
  - repeat constructor.
  - reflexivity.
Defined.

(** ** Series too short for any statistics *)

Lemma py_slice_length_le {A} (l : list A) start stop :
  (length (py_slice l start stop) <= length l)%nat.
Proof. unfold py_slice. rewrite length_take, length_drop. lia. Qed.

Lemma generator_nrows_le {A} gf (data frame : ndarray A) :
  frame ∈ byFrameGeneratorFactory.generator gf data ->
  (nrows frame <= nrows data)%nat.
Proof.
  intros (r & Hr)%list_elem_of_lookup.
  apply generator_lookup in Hr as [_ ->]. simpl.
  unfold nrows, slice_rows.
  repeat case_match; simpl; apply py_slice_length_le.
Qed.

Lemma count_not_nan_le (col : list float) :
  count_not_nan col <= Z.of_nat (length col).
Proof. unfold count_not_nan. pose proof (length_filter (λ x, isnan x = false) col). lia. Qed.

(** With fewer rows than the points the statistics ask for, a sweep flags
    nothing, whatever the cache. *)
Lemma sweep_too_few_rows self gf (data : ndarray float) (cache : ndarray Z) :
  nrows cache = nrows data ->
  Z.of_nat (nrows data)
  < Z.min (2 * byFrameGeneratorFactory.span gf + 1)
          (InterquartileVarianceAlgorithm._min_num_points self) ->
  (InterquartileVarianceAlgorithm.outliers self (Array2 data) gf cache).1
  = full false (shape data).
Proof.
  intros Hrows Hfew. rewrite outliers_rows by done.
  unfold full. simpl. f_equal.
  apply list_eq_same_length with (nrows data);
    [by rewrite length_replicate|by rewrite length_imap, generator_length|].
  intros r row row' Hr. rewrite list_lookup_imap.
  destruct (byFrameGeneratorFactory.generator gf data !! r) as [frame|] eqn:Hf;
    [|done].
  intros [= <-] [-> _]%lookup_replicate.
  assert (frame ∈ byFrameGeneratorFactory.generator gf data) as Hin
    by (by eapply list_elem_of_lookup_2).
  rewrite <-(generator_ncols gf data frame Hin).
  unfold InterquartileVarianceAlgorithm.row_outliers.
  transitivity (map (λ _ : nat, false) (seq 0 (ncols frame)));
    [|by rewrite map_const_replicate, length_seq].
  apply map_ext_in. intros c _.
  destruct (nth c _ false); [|done].
  rewrite is_outlier_unfold, cut_off_too_few; [done|].
  pose proof (count_not_nan_le (column NaN frame c)) as Hle.
  pose proof (generator_nrows_le gf data frame Hin) as Hframe.
  assert (length (column NaN frame c) = nrows frame) as Hcol
    by apply length_map.
  lia.
Qed.

(** When the first sweep flags nothing, a call (with no cap and some fuel,
    or with a positive cap) runs that one sweep, returns the all-false mask
    and leaves the caller's array as it was. *)
Lemma detect_one_empty_sweep (fuel : nat) self (h : gmap nat pyarray)
    (data : nat) (d : pyarray) (num_of_iterations : option Z) :
  h !! data = Some d ->
  (InterquartileVarianceAlgorithm.outliers
     (OutlierDetector._outlier_algorithm self) (Array2 (as_matrix d))
     (OutlierDetector._generator_factory self)
     (full 0 (shape (as_matrix d)))).1
  = full false (shape (as_matrix d)) ->
  match num_of_iterations with
  | None => (0 < fuel)%nat
  | Some n => 0 < n
  end ->
  ∃ out,
    OutlierDetector.outliers fuel self h data num_of_iterations = Some out ∧
    OutlierDetector.sweeps out = [full false (shape (as_matrix d))] ∧
    OutlierDetector.mask out = full false (shape (as_matrix d)) ∧
    OutlierDetector.store_after out !! data = Some d.
Proof.
  intros Hd Hmask Hn.
  unfold OutlierDetector.outliers. rewrite Hd.
  assert (∀ h' data', h' !! data' = Some (Array2 (as_matrix d)) ->
    ∃ cache',
    OutlierDetector.iteration self data'
      (OutlierDetector.mkState h' (full 0 (shape (as_matrix d)))
         (full 0 (shape (as_matrix d))) [])
    = Some (OutlierDetector.mkState h' (full 0 (shape (as_matrix d))) cache'
              [full false (shape (as_matrix d))], true)) as Hit.
  { intros h' data' Hdata'. unfold OutlierDetector.iteration. simpl.
    rewrite Hdata'.
    destruct (InterquartileVarianceAlgorithm.outliers _ _ _ _) as [m cache'].
    simpl in Hmask. subst m. simpl. exists cache'.
    by rewrite np_sum_full_false, add_mask_full. }
  assert (∀ h' data', h' !! data' = Some (Array2 (as_matrix d)) ->
    ∃ st,
    match num_of_iterations with
    | None => OutlierDetector.while_true fuel self data'
    | Some n => OutlierDetector.for_range (Z.to_nat n) self data'
    end (OutlierDetector.mkState h' (full 0 (shape (as_matrix d)))
           (full 0 (shape (as_matrix d))) []) = Some st ∧
    OutlierDetector.store st = h' ∧
    OutlierDetector.outliers_acc st = full 0 (shape (as_matrix d)) ∧
    OutlierDetector.sweep_masks st = [full false (shape (as_matrix d))])
    as Hrun.
  { intros h' data' Hdata'. destruct (Hit h' data' Hdata') as [cache' Hit'].
    destruct num_of_iterations as [n|].
    - destruct (Z.to_nat n) as [|k] eqn:Hk; [lia|]. simpl. rewrite Hit'.
      by eexists.
    - destruct fuel as [|fuel]; [lia|]. simpl. rewrite Hit'. by eexists. }
  destruct d as [v|a]; simpl in *.
  - destruct (Hrun (<[fresh (dom h) := Array2 (reshape_column v)]> h)
                (fresh (dom h))) as (st & Hst & Hstore & Hacc & Hmasks);
      [apply lookup_insert_eq|].
    destruct num_of_iterations; rewrite Hst; eexists; (split; [done|]); simpl;
      rewrite Hacc, Hstore, astype_bool_full;
      (split; [done|]); (split; [done|]);
      (rewrite lookup_insert_ne; [done|]);
      intros Heq; apply (is_fresh (dom h)); rewrite Heq;
      apply elem_of_dom; by rewrite Hd.
  - destruct (Hrun h data Hd) as (st & Hst & Hstore & Hacc & Hmasks).
    destruct num_of_iterations; rewrite Hst; eexists; (split; [done|]); simpl;
      by rewrite Hacc, Hstore, astype_bool_full.
Qed.

(** X4: a series with fewer rows than [min(2*span+1, min_num_points)] is
    never flagged: a call runs one sweep, returns the all-false mask and
    leaves the caller's array as it was. *)
Theorem detect_short_series_unflagged (fuel : nat) self
    (h : gmap nat pyarray) (data : nat) (d : pyarray)
    (num_of_iterations : option Z) :
  h !! data = Some d ->
  Z.of_nat (nrows (as_matrix d))
  < Z.min (2 * byFrameGeneratorFactory.span
                 (OutlierDetector._generator_factory self) + 1)
          (InterquartileVarianceAlgorithm._min_num_points
             (OutlierDetector._outlier_algorithm self)) ->
  match num_of_iterations with
  | None => (0 < fuel)%nat
  | Some n => 0 < n
  end ->
  ∃ out,
    OutlierDetector.outliers fuel self h data num_of_iterations = Some out ∧
    OutlierDetector.sweeps out = [full false (shape (as_matrix d))] ∧
    OutlierDetector.mask out = full false (shape (as_matrix d)) ∧
    OutlierDetector.store_after out !! data = Some d.
Proof.
  intros Hd Hfew Hn. apply detect_one_empty_sweep; [done| |done].
  apply sweep_too_few_rows; [|done].
  apply (f_equal fst (proj1 (full_shape 0 (shape (as_matrix d))))).
Qed.

Lemma detect_short_series_unflagged_witness :
  let self := OutlierDetector.make (byFrameGeneratorFactory.make 8)
                (InterquartileVarianceAlgorithm.make 5 20) in
  let d := Array1 [1; 2; 1; 1000; 2; 1; 2; 1; 2; 1; 2; 1; 2; 1; 2; 1]%float in
  ∃ out,
    OutlierDetector.outliers 1 self {[ 0%nat := d ]} 0%nat None = Some out ∧
    OutlierDetector.sweeps out = [full false (shape (as_matrix d))] ∧
    OutlierDetector.mask out = full false (shape (as_matrix d)) ∧
    OutlierDetector.store_after out !! 0%nat = Some d.
Proof.
  intros self d.
  apply (detect_short_series_unflagged 1 self {[ 0%nat := d ]} 0%nat d None).
  - reflexivity.
  - vm_compute. reflexivity.
  - lia.
Defined.

(** ** A window of zero spread *)

Lemma SFcompare_lt_asym (x y : SpecFloat.spec_float) :
  SpecFloat.SFcompare x y = Some Lt -> SpecFloat.SFcompare y x ≠ Some Lt.
Proof.
  destruct x as [sx| sx| |sx mx ex], y as [sy| sy| |sy my ey]; simpl;
    try done; try (destruct sx; done); try (destruct sy; done);
    try (by destruct sx, sy).
  destruct sx, sy; try done.
  - rewrite (Z.compare_antisym ey ex).
    destruct (ey ?= ex)%Z eqn:He; simpl; try done.
    rewrite !Pos.compare_cont_spec. simpl.
    rewrite (Pos.compare_antisym my mx).
    by destruct (my ?= mx)%positive.
  - rewrite (Z.compare_antisym ey ex).
    destruct (ey ?= ex)%Z eqn:He; simpl; try done.
    rewrite !Pos.compare_cont_spec. simpl.
    rewrite (Pos.compare_antisym my mx).
    by destruct (my ?= mx)%positive.
Qed.

(** Adding or subtracting a zero does not change how a float compares. *)
Lemma SFcompare_zero_shift (x v : SpecFloat.spec_float) (s : bool) :
  SpecFloat.SFcompare (SpecFloat.SFsub FloatOps.prec FloatOps.emax x
                         (SpecFloat.S754_zero s)) v
  = SpecFloat.SFcompare x v ∧
  SpecFloat.SFcompare v (SpecFloat.SFadd FloatOps.prec FloatOps.emax x
                           (SpecFloat.S754_zero s))
  = SpecFloat.SFcompare v x.
Proof.
  destruct x as [sx| sx| |sx mx ex], v as [sv| sv| |sv mv ev], s; simpl;
    try done; by destruct sx.
Qed.

(** No float lies strictly between [m - 0] and [m + 0]. *)
Lemma nothing_inside_zero_band (m c v : float) :
  PrimFloat.eqb c 0 = true ->
  PrimFloat.ltb (PrimFloat.sub m c) v && PrimFloat.ltb v (PrimFloat.add m c)
  = false.
Proof.
  rewrite FloatAxioms.eqb_spec, !FloatAxioms.ltb_spec,
    FloatAxioms.sub_spec, FloatAxioms.add_spec.
  unfold SpecFloat.SFeqb, SpecFloat.SFltb, FloatAxioms.SF64sub,
    FloatAxioms.SF64add.
  intros Hc.
  assert (∃ s, Prim2SF c = SpecFloat.S754_zero s) as [s ->].
  { change (Prim2SF 0) with (SpecFloat.S754_zero false) in Hc.
    destruct (Prim2SF c) as [s| s| |s mc ec]; simpl in Hc;
      try done; [by exists s|by destruct s|by destruct s]. }
  destruct (SFcompare_zero_shift (Prim2SF m) (Prim2SF v) s) as [-> ->].
  destruct (SpecFloat.SFcompare (Prim2SF m) (Prim2SF v)) as [[]|] eqn:Hmv;
    try done.
  apply SFcompare_lt_asym in Hmv.
  by destruct (SpecFloat.SFcompare (Prim2SF v) (Prim2SF m)) as [[]|].
Qed.

Lemma eqb_not_nan (c x : float) : PrimFloat.eqb c x = true -> isnan c = false.
Proof.
  unfold isnan, PrimFloat.is_nan. rewrite !FloatAxioms.eqb_spec.
  unfold SpecFloat.SFeqb.
  destruct (Prim2SF c) as [s| s| |s mc ec]; try done.
  - intros _. simpl. by destruct s.
  - intros _. simpl. destruct s; by rewrite Z.compare_refl, Pos.compare_cont_refl.
Qed.

(** X5: when the cut-off is zero (a window whose quartiles coincide), every
    tested value that is not NaN is an outlier, the median itself
    included. *)
Theorem is_outlier_zero_cut_off (col : list float) (v k : float) (m : Z) :
  PrimFloat.eqb (cut_off col k m) 0 = true -> isnan v = false ->
  is_outlier col v k m = true.
Proof.
  intros Hc Hv. rewrite is_outlier_unfold.
  by rewrite (eqb_not_nan _ _ Hc), Hv, nothing_inside_zero_band.
Qed.

Lemma is_outlier_zero_cut_off_witness :
  let col := [10; 10; 10; 10; 10; 10; 10]%float in
  is_outlier col 10%float 5%float 7 = true ∧
  is_outlier col 11%float 5%float 7 = true.
Proof.
  intros col. split.
  - apply (is_outlier_zero_cut_off col 10%float 5%float 7);
      vm_compute; reflexivity.
  - apply (is_outlier_zero_cut_off col 11%float 5%float 7);
      vm_compute; reflexivity.
Defined.

(** ** Cells of the arrays the detector combines *)

Lemma cell_lookup {A} (d : A) (a : ndarray A) (r c : nat) :
  rectangular a -> (r < nrows a)%nat -> (c < ncols a)%nat ->
  ∃ row x, rows a !! r = Some row ∧ row !! c = Some x ∧ cell d a r c = x.
Proof.
  intros Hrect Hr Hc.
  destruct (lookup_lt_is_Some_2 (rows a) r Hr) as [row Hrow].
  pose proof (Forall_lookup_1 _ _ _ _ Hrect Hrow) as Hlen. simpl in Hlen.
  destruct (lookup_lt_is_Some_2 row c) as [x Hx]; [lia|].
  exists row, x. split; [done|]. split; [done|]. unfold cell.
  by rewrite (nth_lookup_Some _ _ _ _ Hrow), (nth_lookup_Some _ _ _ _ Hx).
Qed.

Lemma cell_zip_with {A B C} (f : A -> B -> C) (da : A) (db : B) (dc : C)
    (a : ndarray A) (b : ndarray B) (n : nat) (r c : nat) :
  rectangular a -> rectangular b -> shape b = shape a ->
  (r < nrows a)%nat -> (c < ncols a)%nat ->
  cell dc (mkArray n (zip_with (zip_with f) (rows a) (rows b))) r c
  = f (cell da a r c) (cell db b r c).
Proof.
  intros Ha Hb [= Hrows Hcols] Hr Hc.
  destruct (cell_lookup da a r c Ha Hr Hc) as (ra & x & Hra & Hx & ->).
  destruct (cell_lookup db b r c Hb) as (rb & y & Hrb & Hy & ->);
    [unfold nrows in *; lia|lia|].
  unfold cell. simpl.
  rewrite (nth_lookup_Some _ r [] (zip_with f ra rb))
    by (by rewrite lookup_zip_with, Hra, Hrb).
  apply nth_lookup_Some. by rewrite lookup_zip_with, Hx, Hy.
Qed.

Lemma cell_astype_bool (a : ndarray Z) (r c : nat) :
  rectangular a -> (r < nrows a)%nat -> (c < ncols a)%nat ->
  cell false (astype_bool a) r c = negb (cell 0 a r c =? 0).
Proof.
  intros Ha Hr Hc.
  destruct (cell_lookup 0 a r c Ha Hr Hc) as (row & x & Hrow & Hx & ->).
  unfold cell, astype_bool. simpl.
  rewrite (nth_lookup_Some _ r [] (map (λ x, negb (x =? 0)) row))
    by (by rewrite list_lookup_fmap, Hrow).
  apply nth_lookup_Some. by rewrite list_lookup_fmap, Hx.
Qed.

Lemma times_flagged_snoc (masks : list (ndarray bool)) (m : ndarray bool)
    (r c : nat) :
  times_flagged (masks ++ [m]) r c
  = times_flagged masks r c + (if cell false m r c then 1 else 0).
Proof.
  unfold times_flagged. rewrite filter_app, length_app, filter_cons. simpl.
  destruct (cell false m r c); case_decide; try done; simpl; lia.
Qed.

(** ** What a whole run keeps true *)

Lemma iteration_run_inv self (a0 : ndarray float) data st st' brk :
  rectangular a0 -> run_inv a0 data st ->
  OutlierDetector.iteration self data st = Some (st', brk) ->
  run_inv a0 data st'.
Proof.
  intros Ha0 (Hinv & Hmarked & Honce) Hit.
  destruct (iteration_step self (shape a0) data st Hinv)
    as (st1 & brk1 & m1 & Hit1 & _ & Hinv1 & _).
  rewrite Hit in Hit1. injection Hit1 as <- <-.
  split; [done|].
  split; [exact (iteration_marked self (shape a0) a0 data st st' brk Hinv Hmarked Hit)|].
  destruct Hinv as (a & Hdata & Hrect & Hshape & Hcache & Hacc & Hacc_shape).
  destruct Hmarked as [Hmarked _].
  assert (a = set_nan_where a0 (astype_bool (OutlierDetector.outliers_acc st)))
    as Ha by congruence.
  assert (nrows (OutlierDetector.num_missing_in_frame st) = nrows a) as Hrows.
  { rewrite Hcache, <-Hshape. done. }
  pose proof (sweep_shape (OutlierDetector._outlier_algorithm self)
                (OutlierDetector._generator_factory self) a _ Hrows)
    as (Hm_shape & Hm_rect & _).
  pose proof (sweep_flags_present (OutlierDetector._outlier_algorithm self)
                (OutlierDetector._generator_factory self) a _ Hrect Hrows)
    as Hflags.
  unfold OutlierDetector.iteration in Hit. rewrite Hdata in Hit.
  destruct (InterquartileVarianceAlgorithm.outliers _ _ _ _) as [m cache'].
  simpl in *.
  assert (OutlierDetector.outliers_acc st'
          = add_mask (OutlierDetector.outliers_acc st) m ∧
          OutlierDetector.sweep_masks st'
          = OutlierDetector.sweep_masks st ++ [m]) as [Hacc' Hmasks'].
  { by destruct (np_sum m =? 0); injection Hit as <- <-. }
  intros r c Hr Hc. rewrite Hacc', Hmasks', times_flagged_snoc.
  destruct (Honce r c Hr Hc) as (Hcount & Hle & Hpresent).
  assert (nrows (OutlierDetector.outliers_acc st) = nrows a0 ∧
          ncols (OutlierDetector.outliers_acc st) = ncols a0) as [Hr' Hc'].
  { by injection Hacc_shape. }
  assert (shape m = shape (OutlierDetector.outliers_acc st)) as Hm_acc
    by congruence.
  unfold add_mask.
  rewrite (cell_zip_with _ 0 false 0 (OutlierDetector.outliers_acc st) m
             _ r c Hacc Hm_rect Hm_acc) by lia.
  rewrite Hcount.
  destruct (cell false m r c) eqn:Hm.
  2:{ rewrite Z.add_0_r. done. }
  (* the cell is flagged now: it held a value, so it was never flagged *)
  destruct (cell_true_lookup m r c Hm) as (mrow & Hmrow & Hb).
  destruct (Forall2_lookup_r _ _ _ _ _ Hflags Hmrow) as (row & Hrow & Hcells).
  destruct (Forall2_lookup_r _ _ _ _ _ Hcells Hb) as (x & Hx & Hnan).
  specialize (Hnan eq_refl).
  assert (cell NaN a r c = x) as Hcell.
  { unfold cell.
    by rewrite (nth_lookup_Some _ _ _ _ Hrow), (nth_lookup_Some _ _ _ _ Hx). }
  rewrite Ha in Hcell. unfold set_nan_where in Hcell.
  rewrite (cell_zip_with _ NaN false NaN a0
             (astype_bool (OutlierDetector.outliers_acc st)) _ r c Ha0
             (astype_bool_rectangular _ Hacc)
             ltac:(by rewrite astype_bool_shape) Hr Hc) in Hcell.
  rewrite cell_astype_bool in Hcell by (done || lia).
  rewrite Hcount in Hcell.
  destruct (Z.eqb_spec (times_flagged (OutlierDetector.sweep_masks st) r c) 0)
    as [Hzero|Hnz]; simpl in Hcell.
  - rewrite Hzero. split; [done|]. split; [lia|]. intros _. by rewrite Hcell.
  - rewrite <-Hcell in Hnan. done.
Qed.

Lemma while_true_run_inv self (a0 : ndarray float) data (fuel : nat) :
  rectangular a0 ->
  ∀ st st', run_inv a0 data st ->
            OutlierDetector.while_true fuel self data st = Some st' ->
            run_inv a0 data st'.
Proof.
  intros Ha0. induction fuel as [|fuel IH]; intros st st' Hinv; [done|].
  simpl.
  destruct (OutlierDetector.iteration self data st) as [[st1 brk]|] eqn:Hit;
    [|done].
  pose proof (iteration_run_inv _ _ _ _ _ _ Ha0 Hinv Hit) as Hinv1.
  destruct brk; [by intros [= <-]|]. by apply IH.
Qed.

Lemma for_range_run_inv self (a0 : ndarray float) data (n : nat) :
  rectangular a0 ->
  ∀ st st', run_inv a0 data st ->
            OutlierDetector.for_range n self data st = Some st' ->
            run_inv a0 data st'.
Proof.
  intros Ha0. induction n as [|n IH]; intros st st' Hinv;
    [by intros [= <-]|].
  simpl.
  destruct (OutlierDetector.iteration self data st) as [[st1 brk]|] eqn:Hit;
    [|done].
  pose proof (iteration_run_inv _ _ _ _ _ _ Ha0 Hinv Hit) as Hinv1.
  destruct brk; [by intros [= <-]|]. by apply IH.
Qed.

Lemma run_inv_start (h : gmap nat pyarray) (data : nat) (a0 : ndarray float) :
  rectangular a0 -> h !! data = Some (Array2 a0) ->
  run_inv a0 data
    (OutlierDetector.mkState h (full 0 (shape a0)) (full 0 (shape a0)) []).
Proof.
  intros Ha0 Hdata.
  destruct (full_shape 0 (shape a0)) as [Hsh Hfull].
  split; [|split].
  - exists a0. pose proof (f_equal fst Hsh). repeat split; done.
  - split; simpl.
    + rewrite Hdata, astype_bool_full. do 2 f_equal. symmetry.
      destruct (full_shape false (shape a0)) as [Hsh' Hfull'].
      apply set_nan_where_none; try done. apply np_sum_full_false.
    + unfold full. simpl. apply Forall_replicate, Forall_replicate. lia.
  - intros r c _ _. simpl. rewrite cell_full_zero.
    unfold times_flagged. simpl. split; [done|]. split; [lia|lia].
Qed.

(** The state a returning call ends in. *)
Lemma outliers_final_state (fuel : nat) self (h : gmap nat pyarray)
    (data : nat) (d : pyarray) (num_of_iterations : option Z) out :
  h !! data = Some d -> well_formed d ->
  OutlierDetector.outliers fuel self h data num_of_iterations = Some out ->
  ∃ data' st,
    run_inv (as_matrix d) data' st ∧
    OutlierDetector.mask out = astype_bool (OutlierDetector.outliers_acc st) ∧
    OutlierDetector.sweeps out = OutlierDetector.sweep_masks st ∧
    OutlierDetector.store_after out = OutlierDetector.store st.
Proof.
  intros Hd Hwf Hout.
  pose proof (as_matrix_rectangular d Hwf) as Ha0.
  unfold OutlierDetector.outliers in Hout. rewrite Hd in Hout.
  set (start := match d with
                | Array1 v =>
                    (<[fresh (dom h) := Array2 (reshape_column v)]> h,
                     fresh (dom h), reshape_column v)
                | Array2 a => (h, data, a)
                end) in Hout.
  assert (∃ h' data', start = (h', data', as_matrix d) ∧
            h' !! data' = Some (Array2 (as_matrix d)))
    as (h' & data' & Hstart & Hdata').
  { destruct d as [v|a]; simpl in *; eexists _, _; (split; [done|]);
      [by rewrite lookup_insert_eq|done]. }
  rewrite Hstart in Hout. cbv beta iota zeta in Hout.
  pose proof (run_inv_start h' data' (as_matrix d) Ha0 Hdata') as Hinv.
  exists data'.
  destruct num_of_iterations as [n|].
  - destruct (OutlierDetector.for_range _ _ _ _) as [st'|] eqn:Hrun; [|done].
    injection Hout as <-. exists st'. simpl.
    split; [|done]. by eapply for_range_run_inv.
  - destruct (OutlierDetector.while_true _ _ _ _) as [st'|] eqn:Hrun; [|done].
    injection Hout as <-. exists st'. simpl.
    split; [|done]. by eapply while_true_run_inv.
Qed.

Lemma times_flagged_pos (masks : list (ndarray bool)) (r c : nat) :
  times_flagged masks r c ≠ 0 ↔ ∃ m, m ∈ masks ∧ cell false m r c = true.
Proof.
  unfold times_flagged. split.
  - intros Hne.
    destruct (filter (λ m, cell false m r c = true) masks) as [|m ms] eqn:Hf;
      [done|].
    exists m.
    assert (m ∈ filter (λ m, cell false m r c = true) masks) as Hin
      by (rewrite Hf; by left).
    apply list_elem_of_filter in Hin as [Hm Hin]. done.
  - intros (m & Hin & Hm).
    assert (m ∈ filter (λ m, cell false m r c = true) masks) as Hin'
      by (by apply list_elem_of_filter).
    destruct (filter _ masks); [by apply not_elem_of_nil in Hin'|].
    simpl. lia.
Qed.

(** ** Properties of a whole call *)

(** X6: the returned mask is the union of the masks of the sweeps: a cell
    is true in it exactly when some sweep of the call flagged it. *)
Theorem detect_mask_is_union (fuel : nat) self (h : gmap nat pyarray)
    (data : nat) (d : pyarray) (num_of_iterations : option Z) (r c : nat) :
  h !! data = Some d -> well_formed d ->
  (num_of_iterations = None ->
   (nrows (as_matrix d) * ncols (as_matrix d) < fuel)%nat) ->
  (r < nrows (as_matrix d))%nat -> (c < ncols (as_matrix d))%nat ->
  ∃ out,
    OutlierDetector.outliers fuel self h data num_of_iterations = Some out ∧
    (cell false (OutlierDetector.mask out) r c = true ↔
     ∃ m, m ∈ OutlierDetector.sweeps out ∧ cell false m r c = true).
Proof.
  intros Hd Hwf Hfuel Hr Hc.
  pose proof (count_present_le _ (as_matrix_rectangular d Hwf)) as Hle.
  destruct (outliers_run fuel self h data d num_of_iterations Hd Hwf)
    as (out & Hrun & _); [intros Hn; specialize (Hfuel Hn); lia|].
  exists out. split; [done|].
  destruct (outliers_final_state _ _ _ _ _ _ _ Hd Hwf Hrun)
    as (data' & st & (Hinv & _ & Honce) & -> & -> & _).
  destruct Hinv as (_ & _ & _ & _ & _ & Hacc & Hacc_shape).
  injection Hacc_shape as Hrows Hcols.
  rewrite cell_astype_bool by (done || lia).
  destruct (Honce r c Hr Hc) as (-> & _ & _).
  rewrite <-times_flagged_pos, negb_true_iff.
  by destruct (Z.eqb_spec (times_flagged (OutlierDetector.sweep_masks st) r c) 0).
Qed.

Lemma detect_mask_is_union_witness :
  let self := OutlierDetector.make (byFrameGeneratorFactory.make 3)
                (InterquartileVarianceAlgorithm.make 5 3) in
  let d := Array1 [1; 2; 1; 100; 2; 1; 2]%float in
  ∃ out,
    OutlierDetector.outliers 8 self {[ 0%nat := d ]} 0%nat None = Some out ∧
    (cell false (OutlierDetector.mask out) 3 0 = true ↔
     ∃ m, m ∈ OutlierDetector.sweeps out ∧ cell false m 3 0 = true).
Proof.
  intros self d.
  apply (detect_mask_is_union 8 self {[ 0%nat := d ]} 0%nat d None 3 0).
  - reflexivity.
  - exact I.
  - intros _. vm_compute. lia.
  - vm_compute. lia.
  - vm_compute. lia.
Defined.

(** X7: no cell is flagged by two sweeps of a call, and a cell of the
    returned mask is only true where the input held a value. *)
Theorem detect_flags_present_cells_once (fuel : nat) self
    (h : gmap nat pyarray) (data : nat) (d : pyarray)
    (num_of_iterations : option Z) (r c : nat) :
  h !! data = Some d -> well_formed d ->
  (num_of_iterations = None ->
   (nrows (as_matrix d) * ncols (as_matrix d) < fuel)%nat) ->
  (r < nrows (as_matrix d))%nat -> (c < ncols (as_matrix d))%nat ->
  ∃ out,
    OutlierDetector.outliers fuel self h data num_of_iterations = Some out ∧
    times_flagged (OutlierDetector.sweeps out) r c <= 1 ∧
    (cell false (OutlierDetector.mask out) r c = true ->
     isnan (cell NaN (as_matrix d) r c) = false).
Proof.
  intros Hd Hwf Hfuel Hr Hc.
  pose proof (count_present_le _ (as_matrix_rectangular d Hwf)) as Hle.
  destruct (outliers_run fuel self h data d num_of_iterations Hd Hwf)
    as (out & Hrun & _); [intros Hn; specialize (Hfuel Hn); lia|].
  exists out. split; [done|].
  destruct (outliers_final_state _ _ _ _ _ _ _ Hd Hwf Hrun)
    as (data' & st & (Hinv & _ & Honce) & -> & -> & _).
  destruct Hinv as (_ & _ & _ & _ & _ & Hacc & Hacc_shape).
  injection Hacc_shape as Hrows Hcols.
  rewrite cell_astype_bool by (done || lia).
  destruct (Honce r c Hr Hc) as (-> & Hone & Hpresent).
  split; [done|]. rewrite negb_true_iff. intros Hnz%Z.eqb_neq.
  apply Hpresent.
  pose proof (Zle_0_nat
    (length (filter (λ m, cell false m r c = true)
               (OutlierDetector.sweep_masks st)))) as Hpos.
  unfold times_flagged in *. lia.
Qed.

Lemma detect_flags_present_cells_once_witness :
  let self := OutlierDetector.make (byFrameGeneratorFactory.make 3)
                (InterquartileVarianceAlgorithm.make 5 3) in
  let d := Array2 (mkArray 1 [[1]; [2]; [1]; [100]; [2]; [1]; [2]]%float) in
  ∃ out,
    OutlierDetector.outliers 8 self {[ 0%nat := d ]} 0%nat None = Some out ∧
    times_flagged (OutlierDetector.sweeps out) 3 0 <= 1 ∧
    (cell false (OutlierDetector.mask out) 3 0 = true ->
     isnan (cell NaN (as_matrix d) 3 0) = false).
Proof.
  intros self d.
  apply (detect_flags_present_cells_once 8 self {[ 0%nat := d ]} 0%nat d None 3 0).
  - reflexivity.
  - repeat constructor.
  - intros _. vm_compute. lia.
  - vm_compute. lia.
  - vm_compute. lia.
Defined.

(** X8: without a cap, a call sweeps until the first sweep that flags
    nothing: every sweep but the last flags at least one cell, and the last
    flags none. *)
Theorem detect_sweeps_until_empty (fuel : nat) self (h : gmap nat pyarray)
    (data : nat) (d : pyarray) :
  h !! data = Some d -> well_formed d ->
  (nrows (as_matrix d) * ncols (as_matrix d) < fuel)%nat ->
  ∃ out ms last,
    OutlierDetector.outliers fuel self h data None = Some out ∧
    OutlierDetector.sweeps out = ms ++ [last] ∧
    Forall (λ m, np_sum m ≠ 0) ms ∧ np_sum last = 0.
Proof.
  intros Hd Hwf Hfuel.
  pose proof (count_present_le _ (as_matrix_rectangular d Hwf)) as Hle.
  destruct (outliers_run fuel self h data d None Hd Hwf)
    as (out & Hrun & _); [lia|].
  destruct (outliers_masks _ _ _ _ _ _ Hrun) as (ms & last & Hms).
  by exists out, ms, last.
Qed.

Lemma detect_sweeps_until_empty_witness :
  let self := OutlierDetector.make (byFrameGeneratorFactory.make 3)
                (InterquartileVarianceAlgorithm.make 5 3) in
  let d := Array1 [1; 2; 1; 100; 2; 1; 2]%float in
  ∃ out ms last,
    OutlierDetector.outliers 8 self {[ 0%nat := d ]} 0%nat None = Some out ∧
    OutlierDetector.sweeps out = ms ++ [last] ∧
    Forall (λ m, np_sum m ≠ 0) ms ∧ np_sum last = 0.
Proof.
  intros self d.
  apply (detect_sweeps_until_empty 8 self {[ 0%nat := d ]} 0%nat d).
  - reflexivity.
  - exact I.
  - vm_compute. lia.
Defined.

(** X9: with a cap [n], a call returns whatever the fuel, after [n] sweeps
    that each flagged something (none for [n <= 0]), or earlier, at the
    first sweep that flags nothing. *)
Theorem detect_capped (fuel : nat) self (h : gmap nat pyarray)
    (data : nat) (d : pyarray) (n : Z) :
  h !! data = Some d -> well_formed d ->
  ∃ out,
    OutlierDetector.outliers fuel self h data (Some n) = Some out ∧
    ((Forall (λ m, np_sum m ≠ 0) (OutlierDetector.sweeps out) ∧
      length (OutlierDetector.sweeps out) = Z.to_nat n) ∨
     (∃ front last,
        OutlierDetector.sweeps out = front ++ [last] ∧
        Forall (λ m, np_sum m ≠ 0) front ∧ np_sum last = 0 ∧
        (length front < Z.to_nat n)%nat)).
Proof.
  intros Hd Hwf.
  destruct (outliers_run fuel self h data d (Some n) Hd Hwf)
    as (out & Hrun & _); [done|].
  exists out. split; [done|].
  exact (outliers_masks _ _ _ _ _ _ Hrun).
Qed.

Lemma detect_capped_witness :
  let self := OutlierDetector.make (byFrameGeneratorFactory.make 3)
                (InterquartileVarianceAlgorithm.make 5 3) in
  let d := Array1 [1; 2; 1; 100; 2; 1; 2]%float in
  ∃ out,
    OutlierDetector.outliers 0 self {[ 0%nat := d ]} 0%nat (Some 1) = Some out ∧
    ((Forall (λ m, np_sum m ≠ 0) (OutlierDetector.sweeps out) ∧
      length (OutlierDetector.sweeps out) = Z.to_nat 1) ∨
     (∃ front last,
        OutlierDetector.sweeps out = front ++ [last] ∧
        Forall (λ m, np_sum m ≠ 0) front ∧ np_sum last = 0 ∧
        (length front < Z.to_nat 1)%nat)).
Proof.
  intros self d.
  apply (detect_capped 0 self {[ 0%nat := d ]} 0%nat d 1).
  - reflexivity.
  - exact I.
Defined.

(** ** What a call does to the store *)

(** X10: a call writes NaN into a 2-D input at exactly the cells of the mask
    it returns, and changes nothing else in it. *)
Theorem detect_marks_2d_input (fuel : nat) self (h : gmap nat pyarray)
    (data : nat) (a : ndarray float) (num_of_iterations : option Z) :
  h !! data = Some (Array2 a) -> rectangular a ->
  (num_of_iterations = None -> (nrows a * ncols a < fuel)%nat) ->
  ∃ out after,
    OutlierDetector.outliers fuel self h data num_of_iterations = Some out ∧
    OutlierDetector.store_after out !! data = Some (Array2 after) ∧
    shape after = shape a ∧
    ∀ r c, (r < nrows a)%nat -> (c < ncols a)%nat ->
      cell NaN after r c
      = if cell false (OutlierDetector.mask out) r c then NaN
        else cell NaN a r c.
Proof.
  intros Hd Hrect Hfuel.
  pose proof (count_present_le a Hrect) as Hle.
  destruct (outliers_run fuel self h data (Array2 a) num_of_iterations Hd Hrect)
    as (out & Hrun & [Hshape Hmrect] & _);
    [intros Hn; specialize (Hfuel Hn); simpl; lia|].
  simpl in Hshape.
  exists out, (set_nan_where a (OutlierDetector.mask out)).
  split; [done|]. split; [by eapply detect_2d_input_marked|].
  split; [by apply set_nan_where_shape|].
  intros r c Hr Hc. unfold set_nan_where.
  by rewrite (cell_zip_with _ NaN false NaN a (OutlierDetector.mask out)).
Qed.

Lemma detect_marks_2d_input_witness :
  let self := OutlierDetector.make (byFrameGeneratorFactory.make 3)
                (InterquartileVarianceAlgorithm.make 5 3) in
  let a := mkArray 1 [[1]; [2]; [1]; [100]; [2]; [1]; [2]]%float in
  ∃ out after,
    OutlierDetector.outliers 8 self {[ 0%nat := Array2 a ]} 0%nat None = Some out ∧
    OutlierDetector.store_after out !! 0%nat = Some (Array2 after) ∧
    shape after = shape a ∧
    ∀ r c, (r < nrows a)%nat -> (c < ncols a)%nat ->
      cell NaN after r c
      = if cell false (OutlierDetector.mask out) r c then NaN
        else cell NaN a r c.
Proof.
  intros self a.
  apply (detect_marks_2d_input 8 self {[ 0%nat := Array2 a ]} 0%nat a None).
  - reflexivity.
  - repeat constructor.
  - intros _. vm_compute. lia.
Defined.

(** X11: a call leaves a 1-D input as it was: the loop writes to the
    reshaped copy it made, never to the caller's array. *)
Theorem detect_leaves_1d_input (fuel : nat) self (h : gmap nat pyarray)
    (data : nat) (v : list float) (num_of_iterations : option Z) :
  h !! data = Some (Array1 v) ->
  (num_of_iterations = None -> (length v < fuel)%nat) ->
  ∃ out,
    OutlierDetector.outliers fuel self h data num_of_iterations = Some out ∧
    OutlierDetector.store_after out !! data = Some (Array1 v).
Proof.
  intros Hd Hfuel.
  pose proof (count_present_le _ (as_matrix_rectangular (Array1 v) I)) as Hle.
  assert (nrows (as_matrix (Array1 v)) * ncols (as_matrix (Array1 v))
          = length v)%nat as Hcells.
  { unfold nrows. simpl. rewrite length_map. lia. }
  destruct (outliers_run fuel self h data (Array1 v) num_of_iterations Hd I)
    as (out & Hrun & _); [intros Hn; specialize (Hfuel Hn); lia|].
  exists out. split; [done|]. by eapply detect_1d_input_untouched.
Qed.

Lemma detect_leaves_1d_input_witness :
  let self := OutlierDetector.make (byFrameGeneratorFactory.make 3)
                (InterquartileVarianceAlgorithm.make 5 3) in
  let v := [1; 2; 1; 100; 2; 1; 2]%float in
  ∃ out,
    OutlierDetector.outliers 8 self {[ 0%nat := Array1 v ]} 0%nat None
    = Some out ∧
    cell false (OutlierDetector.mask out) 3 0 = true ∧
    OutlierDetector.store_after out !! 0%nat = Some (Array1 v).
Proof.
  intros self v.
  destruct (detect_leaves_1d_input 8 self {[ 0%nat := Array1 v ]} 0%nat v None)
    as (out & Hrun & Hstore); [reflexivity|intros _; simpl; lia|].
  exists out. split; [done|]. split; [|done].
  assert (Some out = OutlierDetector.outliers 8 self {[ 0%nat := Array1 v ]}
                       0%nat None) as Hout by done.
  vm_compute in Hout. injection Hout as ->. reflexivity.
Defined.

(** ** More on FUC curves *)

Lemma curve_loop_tiles (FUC_data : list Z) (bp : Z) (fuel : nat) :
  ∀ i j ign curves,
    0 <= i < j -> j <= Z.of_nat (length FUC_data) ->
    curve_loop fuel FUC_data bp i j ign = Some curves ->
    ∃ lo, i <= lo ∧ (ign = false -> lo = i) ∧
          tiles lo (Z.of_nat (length FUC_data) - 1) curves.
Proof.
  induction fuel as [|fuel IH]; intros i j ign curves Hij Hj; [done|].
  simpl. destruct (Z.ltb_spec j (Z.of_nat (length FUC_data))) as [Hlt|Hge].
  - destruct (_ <? Z.abs _).
    + destruct ign; simpl.
      * intros Hrun. destruct (IH j (j + 1) false curves) as (lo & Hlo & Heq & Htiles);
          [lia|lia|done|].
        exists lo. split; [lia|]. split; [done|done].
      * destruct (curve_loop fuel FUC_data bp j (j + 1) false) as [rest|] eqn:Hrest;
          [|done].
        intros [= <-].
        destruct (IH j (j + 1) false rest) as (lo & _ & Heq & Htiles);
          [lia|lia|done|].
        rewrite (Heq eq_refl) in Htiles.
        exists i. split; [lia|]. split; [done|]. simpl.
        split; [done|]. split; [lia|].
        destruct rest; [done|]. by replace (j - 1 + 1) with j by lia.
    + intros Hrun. destruct (IH i (j + 1) ign curves) as (lo & Hlo & Heq & Htiles);
        [lia|lia|done|].
      by exists lo.
  - intros [= <-]. exists i. split; [lia|]. split; [done|]. simpl. lia.
Qed.

(** X12: on a series that is not empty, the curves the generator yields
    without [ignoreFirst] cover the rows [0 .. n-1] in order, without hole
    or overlap; with [ignoreFirst] they cover the rows from some row on. *)
Theorem FUC_curves_tile_the_series (FUC_data : list Z)
    (min_time_breakpoint : Z) (ignoreFirst : bool) :
  FUC_data ≠ [] ->
  ∃ curves lo,
    FUC_curve_generator FUC_data min_time_breakpoint ignoreFirst = Some curves ∧
    0 <= lo ∧ (ignoreFirst = false -> lo = 0) ∧
    tiles lo (Z.of_nat (length FUC_data) - 1) curves.
Proof.
  intros Hne.
  destruct (FUC_curve_generator_total FUC_data min_time_breakpoint ignoreFirst)
    as (curves & Hgen & _).
  exists curves.
  destruct (curve_loop_tiles FUC_data min_time_breakpoint
              (S (length FUC_data)) 0 1 ignoreFirst curves)
    as (lo & Hlo & Heq & Htiles); [lia| |exact Hgen|].
  { destruct FUC_data; [done|]. simpl. lia. }
  by exists lo.
Qed.

Lemma FUC_curves_tile_the_series_witness :
  ∃ curves lo,
    FUC_curve_generator [0; 1; 2; 100; 200; 201] 10 false = Some curves ∧
    0 <= lo ∧ (false = false -> lo = 0) ∧
    tiles lo (Z.of_nat (length [0; 1; 2; 100; 200; 201]) - 1) curves.
Proof.
  apply (FUC_curves_tile_the_series [0; 1; 2; 100; 200; 201] 10 false).
  discriminate.
Defined.

Lemma curve_loop_runs (FUC_data : list Z) (bp : Z) (fuel : nat) :
  ∀ i j ign curves,
    0 <= i < j -> j <= Z.max (Z.of_nat (length FUC_data)) 1 ->
    (∀ k, i <= k < j - 1 -> gap FUC_data k <= bp) ->
    (0 < i -> bp < gap FUC_data (i - 1)) ->
    curve_loop fuel FUC_data bp i j ign = Some curves ->
    Forall (λ c, (∀ k, c.1 <= k < c.2 -> gap FUC_data k <= bp) ∧
                 (c.2 + 1 < Z.of_nat (length FUC_data) ->
                  bp < gap FUC_data c.2) ∧
                 (0 < c.1 -> bp < gap FUC_data (c.1 - 1)))
           curves.
Proof.
  induction fuel as [|fuel IH]; intros i j ign curves Hij Hj Hin Hbefore;
    [done|].
  simpl. destruct (Z.ltb_spec j (Z.of_nat (length FUC_data))) as [Hlt|Hge].
  - assert (Z.abs (nth (Z.to_nat j) FUC_data 0
                   - nth (Z.to_nat (j - 1)) FUC_data 0)
            = gap FUC_data (j - 1)) as ->.
    { unfold gap. by replace (j - 1 + 1) with j by lia. }
    destruct (Z.ltb_spec bp (gap FUC_data (j - 1))) as [Hgap|Hgap].
    + assert (∀ rest, curve_loop fuel FUC_data bp j (j + 1) false = Some rest ->
                Forall (λ c, (∀ k, c.1 <= k < c.2 -> gap FUC_data k <= bp) ∧
                             (c.2 + 1 < Z.of_nat (length FUC_data) ->
                              bp < gap FUC_data c.2) ∧
                             (0 < c.1 -> bp < gap FUC_data (c.1 - 1)))
                       rest) as Hrest.
      { intros rest. apply IH; [lia|lia|intros; lia|done]. }
      destruct ign; simpl; [by apply Hrest|].
      destruct (curve_loop fuel FUC_data bp j (j + 1) false) as [rest|];
        [|done].
      intros [= <-]. constructor; [|by apply Hrest]. simpl.
      split; [intros k Hk; apply Hin; lia|]. split; [done|done].
    + apply IH; [lia|lia| |done].
      intros k Hk. destruct (decide (k = j - 1)) as [->|]; [done|].
      apply Hin. lia.
  - intros [= <-]. constructor; [|done]. simpl.
    split; [intros k Hk; apply Hin; lia|]. split; [lia|done].
Qed.

(** X13: every curve the generator yields is a maximal run of rows less
    than [min_time_breakpoint] apart (or exactly that far): no gap inside it
    exceeds the breakpoint, and it is bounded on each side by a gap that
    does, or by an end of the series. *)
Theorem FUC_curves_are_maximal_runs (FUC_data : list Z)
    (min_time_breakpoint : Z) (ignoreFirst : bool) :
  ∃ curves,
    FUC_curve_generator FUC_data min_time_breakpoint ignoreFirst = Some curves ∧
    ∀ s e, (s, e) ∈ curves ->
      (∀ k, s <= k < e -> gap FUC_data k <= min_time_breakpoint) ∧
      (e + 1 < Z.of_nat (length FUC_data) ->
       min_time_breakpoint < gap FUC_data e) ∧
      (0 < s -> min_time_breakpoint < gap FUC_data (s - 1)).
Proof.
  destruct (FUC_curve_generator_total FUC_data min_time_breakpoint ignoreFirst)
    as (curves & Hgen & _).
  exists curves. split; [done|]. intros s e Hin.
  assert (Forall (λ c, (∀ k, c.1 <= k < c.2 ->
                            gap FUC_data k <= min_time_breakpoint) ∧
                       (c.2 + 1 < Z.of_nat (length FUC_data) ->
                        min_time_breakpoint < gap FUC_data c.2) ∧
                       (0 < c.1 -> min_time_breakpoint < gap FUC_data (c.1 - 1)))
                 curves) as Hruns.
  { apply (curve_loop_runs FUC_data min_time_breakpoint
             (S (length FUC_data)) 0 1 ignoreFirst curves);
      [lia|lia|intros; lia|lia|exact Hgen]. }
  apply (proj1 (Forall_forall _ _) Hruns (s, e) Hin).
Qed.

Lemma curve_loop_nonempty (FUC_data : list Z) (bp : Z) (fuel : nat) :
  ∀ i j ign, curve_loop fuel FUC_data bp i j ign ≠ Some [].
Proof.
  induction fuel as [|fuel IH]; intros i j ign; [done|]. simpl.
  destruct (j <? _); [|done].
  destruct (_ <? Z.abs _); [|apply IH].
  destruct ign; simpl; [apply IH|].
  by destruct (curve_loop fuel FUC_data bp j (j + 1) false).
Qed.

Lemma curve_loop_ignore_first (FUC_data : list Z) (bp : Z) (fuel : nat) :
  ∀ i j c rest,
    curve_loop fuel FUC_data bp i j false = Some (c :: rest) ->
    curve_loop fuel FUC_data bp i j true
    = Some (match rest with [] => [c] | _ :: _ => rest end).
Proof.
  induction fuel as [|fuel IH]; intros i j c rest; [done|]. simpl.
  destruct (j <? _); [|by intros [= <- <-]].
  destruct (_ <? Z.abs _); [|apply IH]. simpl.
  destruct (curve_loop fuel FUC_data bp j (j + 1) false) as [[|c' rest']|] eqn:Hrest;
    try done.
  - by apply curve_loop_nonempty in Hrest.
  - by intros [= <- <-].
Qed.

(** X14: [ignoreFirst] drops the first curve when the series has several
    curves, and nothing when it has only one. *)
Theorem FUC_ignore_first_drops_first_curve (FUC_data : list Z)
    (min_time_breakpoint : Z) :
  ∃ first rest,
    FUC_curve_generator FUC_data min_time_breakpoint false
    = Some (first :: rest) ∧
    FUC_curve_generator FUC_data min_time_breakpoint true
    = Some (match rest with [] => [first] | _ :: _ => rest end).
Proof.
  destruct (FUC_curve_generator_total FUC_data min_time_breakpoint false)
    as ([|first rest] & Hgen & _).
  - by apply curve_loop_nonempty in Hgen.
  - exists first, rest. split; [done|]. by apply curve_loop_ignore_first.
Qed.

(** ** Flagging the curves *)


Lemma ltb_nan_r (x y : float) :
  Prim2SF y = SpecFloat.S754_nan -> PrimFloat.ltb x y = false.
Proof.
  intros Hy. rewrite FloatAxioms.ltb_spec, Hy. unfold SpecFloat.SFltb.
  by destruct (Prim2SF x).
Qed.

Lemma abs_sub_nan (x : float) :
  Prim2SF (PrimFloat.abs (PrimFloat.sub x NaN)) = SpecFloat.S754_nan.
Proof.
  rewrite FloatAxioms.abs_spec, FloatAxioms.sub_spec.
  change (Prim2SF NaN) with SpecFloat.S754_nan.
  unfold FloatAxioms.SF64sub. by destruct (Prim2SF x).
Qed.

Lemma np_std_raises (dt : dtype) (l : list float) (e : exception) :
  np_std dt l = Raise e ↔ e = ZeroDivisionError ∧ dt = object_ ∧ l = [].
Proof.
  unfold np_std. split.
  - destruct dt, l; try done. by intros [= <-].
  - by intros (-> & -> & ->).
Qed.

Lemma tail_window_empty (FUC_curve : list float) :
  py_slice FUC_curve (Some (-8)) (Some (-3)) = [] ↔ (length FUC_curve <= 3)%nat.
Proof.
  unfold py_slice, adjust_index. simpl. split.
  - intros Hnil. apply (f_equal length) in Hnil.
    rewrite length_take, length_drop in Hnil. simpl in Hnil. lia.
  - intros Hlen. rewrite !Z.max_l by lia. done.
Qed.

(** What [FUC_tests] returns on a curve whose slice [[-8:-3]] is empty and
    which passes the count test. *)
Lemma FUC_tests_empty_window (dt : dtype) (FUC_curve : list float)
    (span_co2 : float) (min_num_points : Z)
    (max_diff_from_span max_st_dev : float) :
  (length FUC_curve <= 3)%nat ->
  min_num_points <= Z.of_nat (length FUC_curve) ->
  FUC_tests dt FUC_curve span_co2 min_num_points max_diff_from_span max_st_dev
  = match dt with
    | object_ => Raise ZeroDivisionError
    | float64 => Ok false
    end.
Proof.
  intros Hlen Hmin. unfold FUC_tests.
  destruct (Z.ltb_spec (Z.of_nat (length FUC_curve)) min_num_points); [lia|].
  rewrite (proj2 (tail_window_empty FUC_curve) Hlen).
  change (np_mean []) with NaN.
  rewrite (ltb_nan_r _ _ (abs_sub_nan span_co2)).
  destruct dt; [|done]. simpl. by rewrite ltb_nan_r.
Qed.

(** X16: [FUC_tests] raises nothing but ZeroDivisionError, and raises it
    exactly on a curve of dtype [object] (as [qc_FUC_timeseries] passes) of
    at most three measurements that passes the count test: the slice
    [[-8:-3]] is empty and [np.std] divides by zero.  On a float64 array
    the same curve is not flagged: mean and standard deviation are NaN and
    no comparison with NaN holds. *)
Theorem FUC_tests_tiny_curve (dt : dtype) (FUC_curve : list float)
    (span_co2 : float) (min_num_points : Z)
    (max_diff_from_span max_st_dev : float) :
  (∀ e,
     FUC_tests dt FUC_curve span_co2 min_num_points max_diff_from_span
       max_st_dev = Raise e ↔
     e = ZeroDivisionError ∧ dt = object_ ∧
     min_num_points <= Z.of_nat (length FUC_curve) ∧
     (length FUC_curve <= 3)%nat) ∧
  (dt = float64 ∧ min_num_points <= Z.of_nat (length FUC_curve) ∧
   (length FUC_curve <= 3)%nat ->
   FUC_tests dt FUC_curve span_co2 min_num_points max_diff_from_span
     max_st_dev = Ok false).
Proof.
  split.
  - intros e. split.
    + unfold FUC_tests.
      destruct (Z.ltb_spec (Z.of_nat (length FUC_curve)) min_num_points);
        [done|].
      destruct (PrimFloat.ltb max_diff_from_span _); [done|].
      destruct (np_std dt _) as [sd|e'] eqn:Hstd;
        [by destruct (PrimFloat.ltb max_st_dev sd)|].
      intros [= ->]. apply np_std_raises in Hstd as (-> & -> & Hnil).
      by apply tail_window_empty in Hnil.
    + intros (-> & -> & Hmin & Hlen).
      by rewrite FUC_tests_empty_window.
  - intros (-> & Hmin & Hlen). by rewrite FUC_tests_empty_window.
Qed.

Lemma FUC_tests_tiny_curve_witness :
  FUC_tests object_ [390; 1000; 5]%float 400%float 1 5%float 2.25%float
  = Raise ZeroDivisionError ∧
  FUC_tests float64 [390; 1000; 5]%float 400%float 1 5%float 2.25%float
  = Ok false.
Proof.
  split.
  - apply (FUC_tests_tiny_curve object_ [390; 1000; 5]%float 400%float 1
             5%float 2.25%float).
    repeat split; simpl; lia.
  - apply (FUC_tests_tiny_curve float64 [390; 1000; 5]%float 400%float 1
             5%float 2.25%float).
    repeat split; simpl; lia.
Defined.

Lemma FUC_tests_only_divides_by_zero (dt : dtype) (FUC_curve : list float)
    (span_co2 : float) (min_num_points : Z)
    (max_diff_from_span max_st_dev : float) (e : exception) :
  FUC_tests dt FUC_curve span_co2 min_num_points max_diff_from_span max_st_dev
  = Raise e -> e = ZeroDivisionError.
Proof.
  unfold FUC_tests.
  destruct (_ <? _); [done|]. destruct (PrimFloat.ltb max_diff_from_span _); [done|].
  destruct (np_std dt _) as [sd|e'] eqn:Hstd;
    [by destruct (PrimFloat.ltb max_st_dev sd)|].
  intros [= ->]. by apply np_std_raises in Hstd as (-> & _).
Qed.

Lemma try_map_ok {A B} (f : A -> result B) (g : A -> B) (l : list A) :
  Forall (λ x, f x = Ok (g x)) l -> try_map f l = Ok (map g l).
Proof.
  induction 1 as [|x l Hx _ IH]; simpl; [done|]. by rewrite Hx, IH.
Qed.

Lemma try_map_raise {A B} (f : A -> result B) (e : exception) (l : list A) :
  Forall (λ x, ∀ e', f x = Raise e' -> e' = e) l ->
  Exists (λ x, f x = Raise e) l ->
  try_map f l = Raise e.
Proof.
  induction 1 as [|x l Hx _ IH]; intros Hex; [by apply Exists_nil in Hex|].
  simpl. destruct (f x) as [y|e'] eqn:Hfx.
  - apply Exists_cons in Hex as [Hx'|Hl]; [congruence|].
    by rewrite (IH Hl).
  - by rewrite (Hx e' eq_refl).
Qed.

(** X15: [qc_FUC_timeseries] raises IndexError (the first timestamp) on an
    empty series.  On any other series it raises ZeroDivisionError when
    [FUC_tests] does for some curve, and otherwise returns one row per
    curve, whose timestamp is that of the first row of the curve. *)
Theorem qc_rows_per_curve (FUC_time_series : list (Z * float))
    (min_time_breakpoint : Z) (span_co2 : float) (min_num_points : Z)
    (max_diff_from_span max_st_dev : float) (ignoreFirst : bool) :
  ∃ curves,
    FUC_curve_generator (map fst FUC_time_series) min_time_breakpoint ignoreFirst
    = Some curves ∧
    (FUC_time_series = [] ->
     qc_FUC_timeseries FUC_time_series min_time_breakpoint span_co2
       min_num_points max_diff_from_span max_st_dev ignoreFirst
     = Some (Raise IndexError)) ∧
    (FUC_time_series ≠ [] ->
     let flag c :=
       FUC_tests object_ (tested_measurements FUC_time_series c.1 c.2)
         span_co2 min_num_points max_diff_from_span max_st_dev in
     (Exists (λ c, flag c = Raise ZeroDivisionError) curves ->
      qc_FUC_timeseries FUC_time_series min_time_breakpoint span_co2
        min_num_points max_diff_from_span max_st_dev ignoreFirst
      = Some (Raise ZeroDivisionError)) ∧
     (Forall (λ c, flag c ≠ Raise ZeroDivisionError) curves ->
      ∃ out,
        qc_FUC_timeseries FUC_time_series min_time_breakpoint span_co2
          min_num_points max_diff_from_span max_st_dev ignoreFirst
        = Some (Ok out) ∧
        map fst out
        = map (λ c, nth (Z.to_nat c.1) (map fst FUC_time_series) 0) curves)).
Proof.
  destruct (FUC_curve_generator_total (map fst FUC_time_series)
              min_time_breakpoint ignoreFirst) as (curves & Hgen & Hall).
  rewrite length_map in Hall.
  exists curves. split; [done|]. split.
  - intros ->. by destruct ignoreFirst.
  - intros Hne flag.
    assert (Forall (λ c,
              curve_row FUC_time_series span_co2 min_num_points
                max_diff_from_span max_st_dev c
              = match flag c with
                | Raise e => Raise e
                | Ok b => Ok (nth (Z.to_nat c.1) (map fst FUC_time_series) 0, b)
                end) curves) as Hrow.
    { eapply Forall_impl; [exact Hall|].
      intros [s e] [Hs He]. simpl in *.
      destruct (lookup_lt_is_Some_2 FUC_time_series (Z.to_nat s)) as [row Hrow].
      { destruct FUC_time_series; [done|]. simpl in *. lia. }
      rewrite Hrow.
      assert (nth (Z.to_nat s) (map fst FUC_time_series) 0 = row.1) as ->.
      { apply nth_lookup_Some. by rewrite list_lookup_fmap, Hrow. }
      done. }
    unfold qc_FUC_timeseries. rewrite Hgen.
    rewrite (try_map_ext _ _ _ Hrow). split.
    + intros Hex. f_equal. apply try_map_raise.
      * apply Forall_forall. intros c _ e'.
        destruct (flag c) as [b|e] eqn:Hflag; [done|].
        intros [= <-]. symmetry.
        by apply FUC_tests_only_divides_by_zero in Hflag.
      * eapply Exists_impl; [exact Hex|]. intros c Hc. simpl in Hc.
        by rewrite Hc.
    + intros Hok.
      exists (map (λ c, (nth (Z.to_nat c.1) (map fst FUC_time_series) 0,
                         match flag c with Ok b => b | Raise _ => false end))
                  curves).
      split.
      * f_equal. apply try_map_ok. eapply Forall_impl; [exact Hok|].
        intros c Hc. simpl in Hc.
        destruct (flag c) as [b|e] eqn:Hflag; [done|].
        by apply FUC_tests_only_divides_by_zero in Hflag as ->.
      * rewrite map_map. done.
Qed.





(** ** The memoization changes no result *)

Lemma memoized_sweep_unmemoized self gf (data : ndarray float)
    (cache : ndarray Z) :
  nrows cache = nrows data -> cache_sound self gf data cache ->
  (InterquartileVarianceAlgorithm.outliers self (Array2 data) gf cache).1
  = unmemoized_sweep self gf data.
Proof.
  intros Hrows Hsound. rewrite outliers_rows by done.
  unfold unmemoized_sweep. simpl. f_equal.
  apply list_eq. intros r. rewrite !list_lookup_imap.
  destruct (byFrameGeneratorFactory.generator gf data !! r) as [frame|] eqn:Hf;
    [|done].
  simpl. f_equal.
  assert (ncols frame = ncols data) as Hcols.
  { eapply generator_ncols, list_elem_of_lookup_2, Hf. }
  unfold InterquartileVarianceAlgorithm.row_outliers.
  apply map_ext_in. intros c Hc. apply in_seq in Hc.
  unfold InterquartileVarianceAlgorithm.need_recalc,
    InterquartileVarianceAlgorithm.new_num_missing_data.
  rewrite nth_map_seq by (rewrite length_map, length_seq; lia).
  rewrite nth_map_seq by lia.
  destruct (Z.eqb_spec (count_not_nan (column NaN frame c)) (cell 0 cache r c))
    as [Heq|_]; [|done].
  simpl. symmetry. apply (Hsound r frame c Hf); [lia|done].
Qed.

Lemma count_zero_not_nan_values (col : list float) :
  count_not_nan col = 0 -> not_nan_values col = [].
Proof.
  unfold count_not_nan, not_nan_values. intros H.
  apply length_zero_iff_nil. lia.
Qed.

(** Nothing to compute from: the cut-off is NaN. *)
Lemma cut_off_no_value (col : list float) (k : float) (m : Z) :
  count_not_nan col = 0 -> isnan (cut_off col k m) = true.
Proof.
  intros Hzero. unfold cut_off, nanpercentile.
  rewrite (count_zero_not_nan_values col Hzero). simpl.
  destruct (m <=? count_not_nan col); apply isnan_nan_mul.
Qed.

Lemma cache_sound_zero self gf (data : ndarray float) (sh : nat * nat) :
  cache_sound self gf data (full 0 sh).
Proof.
  intros r frame c _ _. rewrite cell_full_zero. intros Hzero.
  by rewrite is_outlier_unfold, cut_off_no_value.
Qed.

Lemma take_zip_with {A B C} (f : A -> B -> C) (l : list A) (k : list B) n :
  take n (zip_with f l k) = zip_with f (take n l) (take n k).
Proof.
  revert l k. induction n as [|n IH]; intros [|x l] [|y k]; simpl; try done.
  by rewrite IH.
Qed.

Lemma drop_zip_with {A B C} (f : A -> B -> C) (l : list A) (k : list B) n :
  drop n (zip_with f l k) = zip_with f (drop n l) (drop n k).
Proof.
  revert l k. induction n as [|n IH]; intros [|x l] [|y k]; simpl; try done.
  by destruct (drop n l).
Qed.

Lemma nth_set_nan_row (c : nat) (xs : list float) (bs : list bool) :
  length xs = length bs ->
  nth c (zip_with (λ x (b : bool), if b then NaN else x) xs bs) NaN
  = if nth c bs false then NaN else nth c xs NaN.
Proof.
  revert xs bs. induction c as [|c IH]; intros [|x xs] [|b bs]; simpl;
    try done.
  intros [= Hlen]. by apply IH.
Qed.

(** A column of the marked rows is the column of the rows, marked with the
    column of the mask. *)
Lemma column_set_nan (c : nat) (xss : list (list float)) (bss : list (list bool)) :
  Forall2 (λ xs bs, length xs = length bs) xss bss ->
  map (λ row, nth c row NaN)
      (zip_with (zip_with (λ x (b : bool), if b then NaN else x)) xss bss)
  = zip_with (λ x (b : bool), if b then NaN else x)
      (map (λ row, nth c row NaN) xss) (map (λ row, nth c row false) bss).
Proof.
  induction 1 as [|xs bs xss bss Hlen _ IH]; simpl; [done|].
  by rewrite IH, nth_set_nan_row.
Qed.

Lemma column_flags_present (c : nat) (xss : list (list float))
    (bss : list (list bool)) :
  Forall2 (Forall2 (λ (x : float) (b : bool), b = true -> isnan x = false))
    xss bss ->
  Forall2 (λ (x : float) (b : bool), b = true -> isnan x = false)
    (map (λ row, nth c row NaN) xss) (map (λ row, nth c row false) bss).
Proof.
  induction 1 as [|xs bs xss bss Hrow _ IH]; simpl; constructor; [|done].
  intros Hb. apply nth_true_lookup in Hb.
  destruct (Forall2_lookup_r _ _ _ _ _ Hrow Hb) as (x & Hx & Hnan).
  rewrite (nth_lookup_Some _ _ _ _ Hx). by apply Hnan.
Qed.

Lemma unmarked_when_count_kept (xs : list float) (bs : list bool) :
  Forall2 (λ (x : float) (b : bool), b = true -> isnan x = false) xs bs ->
  count_not_nan (zip_with (λ x (b : bool), if b then NaN else x) xs bs)
  = count_not_nan xs ->
  zip_with (λ x (b : bool), if b then NaN else x) xs bs = xs ∧
  Forall (λ b, b = false) bs.
Proof.
  intros Hflags Hcount.
  pose proof (set_nan_row_count xs bs Hflags) as Hsum.
  unfold count_not_nan in Hcount.
  assert (filter (λ b, b = true) bs = []) as Hnone
    by (apply length_zero_iff_nil; lia).
  split.
  - apply set_nan_row_none; [|done]. symmetry. by eapply Forall2_length.
  - clear -Hnone. induction bs as [|b bs IH]; [done|].
    rewrite filter_cons in Hnone. destruct b; [done|].
    constructor; [done|]. by apply IH.
Qed.

Lemma frame_start_bounds (h n r : nat) :
  (r < n)%nat ->
  (frame_start h n r <= r < frame_start h n r + (2 * h + 1))%nat.
Proof.
  intros Hr. unfold frame_start.
  destruct (Nat.ltb_spec r h); [lia|].
  destruct (Nat.ltb_spec r (n - h)); lia.
Qed.

Lemma cell_unmemoized_sweep self gf (data : ndarray float) (r c : nat) frame :
  byFrameGeneratorFactory.generator gf data !! r = Some frame ->
  (c < ncols data)%nat ->
  cell false (unmemoized_sweep self gf data) r c
  = is_outlier (column NaN frame c) (cell NaN data r c)
      (InterquartileVarianceAlgorithm._stdev_limit self)
      (Z.min (2 * byFrameGeneratorFactory.span gf + 1)
             (InterquartileVarianceAlgorithm._min_num_points self)).
Proof.
  intros Hf Hc.
  assert (ncols frame = ncols data) as Hcols.
  { eapply generator_ncols, list_elem_of_lookup_2, Hf. }
  unfold cell at 1, unmemoized_sweep. simpl.
  erewrite (nth_lookup_Some _ r []);
    [|by rewrite list_lookup_imap, Hf].
  by rewrite nth_map_seq by lia.
Qed.

(** After a sweep and the marking of what it flagged, the cache the sweep
    returned may be trusted for the marked data: a window whose count is
    unchanged holds no newly marked cell, the tested cell included, so the
    result of the last sweep for it, [False], still stands. *)
Lemma cache_sound_step self (h : nat) (a : ndarray float) (cache : ndarray Z) :
  rectangular a -> nrows cache = nrows a ->
  cache_sound self (byFrameGeneratorFactory.make (Z.of_nat h)) a cache ->
  cache_sound self (byFrameGeneratorFactory.make (Z.of_nat h))
    (set_nan_where a
       (InterquartileVarianceAlgorithm.outliers self (Array2 a)
          (byFrameGeneratorFactory.make (Z.of_nat h)) cache).1)
    (InterquartileVarianceAlgorithm.outliers self (Array2 a)
       (byFrameGeneratorFactory.make (Z.of_nat h)) cache).2.
Proof.
  intros Hrect Hrows Hsound.
  set (gf := byFrameGeneratorFactory.make (Z.of_nat h)) in *.
  pose proof (memoized_sweep_unmemoized self gf a cache Hrows Hsound) as Hnaive.
  pose proof (sweep_flags_present self gf a cache Hrect Hrows) as Hflags.
  pose proof (sweep_shape self gf a cache Hrows) as (Hm_shape & Hm_rect & _).
  assert ((InterquartileVarianceAlgorithm.outliers self (Array2 a) gf cache).2
          = mkArray (ncols cache)
              (imap (λ _ frame,
                       InterquartileVarianceAlgorithm.new_num_missing_data frame)
                    (byFrameGeneratorFactory.generator gf a))) as Hcache'.
  { by rewrite outliers_rows. }
  destruct (InterquartileVarianceAlgorithm.outliers self (Array2 a) gf cache)
    as [mask cache'].
  simpl in *. subst cache'.
  injection Hm_shape as Hm_rows Hm_cols.
  assert (nrows (set_nan_where a mask) = nrows a) as Hrows'.
  { unfold nrows, set_nan_where in *. simpl. rewrite length_zip_with. lia. }
  intros r frame' c Hframe' Hc Hcount. simpl in Hc.
  assert (r < nrows a)%nat as Hr.
  { apply lookup_lt_Some in Hframe'. rewrite generator_length in Hframe'. lia. }
  unfold gf in Hframe'. rewrite generator_block in Hframe' by lia.
  injection Hframe' as <-. rewrite Hrows' in *.
  set (lo := frame_start h (nrows a) r) in *.
  pose proof (frame_start_bounds h (nrows a) r Hr) as Hlo. fold lo in Hlo.
  pose proof (generator_block h a r Hr) as Hframe. fold lo gf in Hframe.
  (* the count the cache holds is that of the window before the marking *)
  assert (cell 0
            (mkArray (ncols cache)
               (imap (λ _ frame,
                        InterquartileVarianceAlgorithm.new_num_missing_data frame)
                     (byFrameGeneratorFactory.generator gf a))) r c
          = count_not_nan (column NaN (block a lo (2 * h + 1)) c)) as Hcached.
  { unfold cell. simpl.
    erewrite (nth_lookup_Some _ r []);
      [|by rewrite list_lookup_imap, Hframe].
    unfold InterquartileVarianceAlgorithm.new_num_missing_data.
    by rewrite nth_map_seq by (simpl; lia). }
  rewrite Hcached in Hcount. clear Hcached.
  (* the column of the window after the marking *)
  set (A := take (2 * h + 1) (drop lo (rows a))).
  set (B := take (2 * h + 1) (drop lo (rows mask))).
  assert (Forall2 (Forall2 (λ (x : float) (b : bool),
                              b = true -> isnan x = false)) A B) as HAB
    by (by apply Forall2_take, Forall2_drop).
  assert (column NaN (block (set_nan_where a mask) lo (2 * h + 1)) c
          = zip_with (λ x (b : bool), if b then NaN else x)
              (column NaN (block a lo (2 * h + 1)) c)
              (map (λ row, nth c row false) B)) as Hcolumn.
  { unfold column, block, set_nan_where. simpl.
    rewrite drop_zip_with, take_zip_with. fold A B.
    apply column_set_nan.
    eapply Forall2_impl; [exact HAB|]. intros xs bs. apply Forall2_length. }
  change (h + (h + 0) + 1)%nat with (2 * h + 1)%nat in *.
  rewrite Hcolumn in Hcount |- *.
  destruct (unmarked_when_count_kept
              (column NaN (block a lo (2 * h + 1)) c)
              (map (λ row, nth c row false) B)
              (column_flags_present c A B HAB) (eq_sym Hcount))
    as [Hsame Hnone].
  rewrite Hsame.
  (* the tested cell is in its window, so it was not marked *)
  assert (cell false mask r c = false) as Hunflagged.
  { destruct (lookup_lt_is_Some_2 (rows mask) r) as [mrow Hmrow];
      [unfold nrows in *; lia|].
    unfold cell. rewrite (nth_lookup_Some _ _ _ _ Hmrow).
    apply (proj1 (Forall_forall _ _) Hnone).
    apply list_elem_of_fmap. exists mrow. split; [done|].
    apply list_elem_of_lookup. exists (r - lo)%nat. unfold B.
    rewrite lookup_take_lt by lia. rewrite lookup_drop.
    by replace (lo + (r - lo))%nat with r by lia. }
  unfold set_nan_where.
  rewrite (cell_zip_with _ NaN false NaN a mask _ r c Hrect Hm_rect)
    by (done || unfold shape; congruence).
  rewrite Hunflagged.
  rewrite <-(cell_unmemoized_sweep self gf a r c _ Hframe Hc).
  by rewrite <-Hnaive.
Qed.

Lemma iteration_reference self (h : nat) sh data st (a : ndarray float) :
  OutlierDetector._generator_factory self
  = byFrameGeneratorFactory.make (Z.of_nat h) ->
  detector_inv sh data st ->
  OutlierDetector.store st !! data = Some (Array2 a) ->
  cache_sound (OutlierDetector._outlier_algorithm self)
    (OutlierDetector._generator_factory self) a
    (OutlierDetector.num_missing_in_frame st) ->
  let m := unmemoized_sweep (OutlierDetector._outlier_algorithm self)
             (OutlierDetector._generator_factory self) a in
  ∃ st',
    OutlierDetector.iteration self data st = Some (st', np_sum m =? 0) ∧
    OutlierDetector.outliers_acc st' = add_mask (OutlierDetector.outliers_acc st) m ∧
    OutlierDetector.sweep_masks st' = OutlierDetector.sweep_masks st ++ [m] ∧
    detector_inv sh data st' ∧
    ((np_sum m =? 0) = false ->
     OutlierDetector.store st' !! data = Some (Array2 (set_nan_where a m)) ∧
     cache_sound (OutlierDetector._outlier_algorithm self)
       (OutlierDetector._generator_factory self) (set_nan_where a m)
       (OutlierDetector.num_missing_in_frame st')).
Proof.
  intros Hgf Hinv Hdata Hsound m.
  destruct (iteration_step self sh data st Hinv)
    as (st1 & brk & m1 & Hit & _ & Hinv1 & _).
  destruct Hinv as (a' & Hdata' & Hrect & Hshape & Hcache & _).
  assert (a' = a) as -> by congruence.
  assert (nrows (OutlierDetector.num_missing_in_frame st) = nrows a) as Hrows.
  { rewrite Hcache, <-Hshape. done. }
  pose proof (memoized_sweep_unmemoized _ _ a _ Hrows Hsound) as Hnaive.
  fold m in Hnaive.
  pose proof Hsound as Hstep. rewrite Hgf in Hstep.
  apply (cache_sound_step _ h a _ Hrect Hrows) in Hstep.
  rewrite <-Hgf in Hstep. rewrite Hnaive in Hstep.
  unfold OutlierDetector.iteration in Hit |- *. rewrite Hdata in Hit |- *.
  destruct (InterquartileVarianceAlgorithm.outliers _ _ _ _) as [m' cache'].
  simpl in Hnaive, Hstep. subst m'.
  destruct (np_sum m =? 0) eqn:Hsum; injection Hit as <- <-.
  - eexists. split; [done|]. simpl. repeat split; try done.
  - eexists. split; [done|]. simpl. split; [done|]. split; [done|].
    split; [done|]. intros _. by rewrite lookup_insert_eq.
Qed.

Lemma for_range_reference self (h : nat) sh data (n : nat) :
  OutlierDetector._generator_factory self
  = byFrameGeneratorFactory.make (Z.of_nat h) ->
  ∀ st a st',
    detector_inv sh data st ->
    OutlierDetector.store st !! data = Some (Array2 a) ->
    cache_sound (OutlierDetector._outlier_algorithm self)
      (OutlierDetector._generator_factory self) a
      (OutlierDetector.num_missing_in_frame st) ->
    OutlierDetector.for_range n self data st = Some st' ->
    (OutlierDetector.outliers_acc st', OutlierDetector.sweep_masks st')
    = reference_run n self a (OutlierDetector.outliers_acc st)
        (OutlierDetector.sweep_masks st).
Proof.
  intros Hgf. induction n as [|n IH]; intros st a st' Hinv Hdata Hsound.
  - by intros [= <-].
  - destruct (iteration_reference self h sh data st a Hgf Hinv Hdata Hsound)
      as (st1 & Hit & Hacc & Hmasks & Hinv1 & Hnext).
    simpl. rewrite Hit.
    destruct (np_sum _ =? 0).
    + intros [= <-]. by rewrite Hacc, Hmasks.
    + destruct (Hnext eq_refl) as [Hdata1 Hsound1].
      intros Hrun. rewrite (IH st1 _ st' Hinv1 Hdata1 Hsound1 Hrun).
      by rewrite Hacc, Hmasks.
Qed.

Lemma while_true_reference self (h : nat) sh data (fuel : nat) :
  OutlierDetector._generator_factory self
  = byFrameGeneratorFactory.make (Z.of_nat h) ->
  ∀ st a st',
    detector_inv sh data st ->
    OutlierDetector.store st !! data = Some (Array2 a) ->
    cache_sound (OutlierDetector._outlier_algorithm self)
      (OutlierDetector._generator_factory self) a
      (OutlierDetector.num_missing_in_frame st) ->
    OutlierDetector.while_true fuel self data st = Some st' ->
    (OutlierDetector.outliers_acc st', OutlierDetector.sweep_masks st')
    = reference_run fuel self a (OutlierDetector.outliers_acc st)
        (OutlierDetector.sweep_masks st).
Proof.
  intros Hgf. induction fuel as [|fuel IH]; intros st a st' Hinv Hdata Hsound;
    [done|].
  destruct (iteration_reference self h sh data st a Hgf Hinv Hdata Hsound)
    as (st1 & Hit & Hacc & Hmasks & Hinv1 & Hnext).
  simpl. rewrite Hit.
  destruct (np_sum _ =? 0).
  - intros [= <-]. by rewrite Hacc, Hmasks.
  - destruct (Hnext eq_refl) as [Hdata1 Hsound1].
    intros Hrun. rewrite (IH st1 _ st' Hinv1 Hdata1 Hsound1 Hrun).
    by rewrite Hacc, Hmasks.
Qed.

(** X19: the memoization is only an optimisation.  For a half-width that is
    not negative, a call runs the same sweeps and returns the same mask as
    the detector that recomputes every cell in every sweep. *)
Theorem memoization_is_transparent (fuel : nat) self (h : gmap nat pyarray)
    (data : nat) (d : pyarray) (num_of_iterations : option Z) :
  h !! data = Some d -> well_formed d ->
  0 <= byFrameGeneratorFactory._frame (OutlierDetector._generator_factory self) ->
  (num_of_iterations = None ->
   (nrows (as_matrix d) * ncols (as_matrix d) < fuel)%nat) ->
  ∃ out,
    OutlierDetector.outliers fuel self h data num_of_iterations = Some out ∧
    let reference :=
      reference_run
        (match num_of_iterations with
         | None => fuel
         | Some n => Z.to_nat n
         end)
        self (as_matrix d) (full 0 (shape (as_matrix d))) [] in
    OutlierDetector.mask out = astype_bool reference.1 ∧
    OutlierDetector.sweeps out = reference.2.
Proof.
  intros Hd Hwf Hframe Hfuel.
  pose proof (as_matrix_rectangular d Hwf) as Ha0.
  pose proof (count_present_le _ Ha0) as Hle.
  destruct (outliers_run fuel self h data d num_of_iterations Hd Hwf)
    as (out & Hrun & _); [intros Hn; specialize (Hfuel Hn); lia|].
  exists out. split; [done|].
  assert (OutlierDetector._generator_factory self
          = byFrameGeneratorFactory.make
              (Z.of_nat (Z.to_nat (byFrameGeneratorFactory._frame
                                     (OutlierDetector._generator_factory self)))))
    as Hgf.
  { destruct (OutlierDetector._generator_factory self) as [f]. simpl in *.
    f_equal. lia. }
  unfold OutlierDetector.outliers in Hrun. rewrite Hd in Hrun.
  set (start := match d with
                | Array1 v =>
                    (<[fresh (dom h) := Array2 (reshape_column v)]> h,
                     fresh (dom h), reshape_column v)
                | Array2 a => (h, data, a)
                end) in Hrun.
  assert (∃ h' data', start = (h', data', as_matrix d) ∧
            h' !! data' = Some (Array2 (as_matrix d)))
    as (h' & data' & Hstart & Hdata').
  { destruct d as [v|a]; simpl in *; eexists _, _; (split; [done|]);
      [by rewrite lookup_insert_eq|done]. }
  rewrite Hstart in Hrun. cbv beta iota zeta in Hrun.
  pose proof (run_inv_start h' data' (as_matrix d) Ha0 Hdata') as (Hinv & _).
  pose proof (cache_sound_zero (OutlierDetector._outlier_algorithm self)
                (OutlierDetector._generator_factory self) (as_matrix d)
                (shape (as_matrix d))) as Hsound.
  destruct num_of_iterations as [n|].
  - destruct (OutlierDetector.for_range _ _ _ _) as [st'|] eqn:Hloop; [|done].
    injection Hrun as <-. simpl.
    pose proof (for_range_reference self _ _ data' _ Hgf _ _ _ Hinv Hdata'
                  Hsound Hloop) as Href.
    simpl in Href. rewrite <-Href. done.
  - destruct (OutlierDetector.while_true _ _ _ _) as [st'|] eqn:Hloop; [|done].
    injection Hrun as <-. simpl.
    pose proof (while_true_reference self _ _ data' _ Hgf _ _ _ Hinv Hdata'
                  Hsound Hloop) as Href.
    simpl in Href. rewrite <-Href. done.
Qed.

Lemma memoization_is_transparent_witness :
  let self := OutlierDetector.make (byFrameGeneratorFactory.make 3)
                (InterquartileVarianceAlgorithm.make 5 3) in
  let d := Array1 [1; 2; 1; 100; 2; 1; 2]%float in
  ∃ out,
    OutlierDetector.outliers 8 self {[ 0%nat := d ]} 0%nat None = Some out ∧
    let reference :=
      reference_run 8 self (as_matrix d) (full 0 (shape (as_matrix d))) [] in
    OutlierDetector.mask out = astype_bool reference.1 ∧
    OutlierDetector.sweeps out = reference.2.
Proof.
  intros self d.
  apply (memoization_is_transparent 8 self {[ 0%nat := d ]} 0%nat d None).
  - reflexivity.
  - exact I.
  - simpl. lia.
  - intros _. vm_compute. lia.
Defined.
